(** * The todo page of [src/app/page.tsx]: task store, reminder monitor,
      toast queue

    The React component [TodoApp] keeps eight [useState] cells, two effects
    (the one-second reminder check and the toast dismissal timeout) and three
    handlers ([addTodo], [toggleTodo], [deleteTodo]).  The cells become one
    record, every handler and timer callback becomes a function on that
    record, and the browser (clock, date parser, permission prompt, timers)
    supplies the payload of the events.

    Conventions of the embedding:
    - a JavaScript string is its sequence of UTF-16 code units, so that
      [String.prototype.trim] strips exactly the code units ECMAScript calls
      WhiteSpace or LineTerminator;
    - a [Date] is its time value in milliseconds, or the invalid date (NaN);
    - state updater functions are applied once each, in the order in which
      they were queued (production React; the development-only double
      invocation of StrictMode is not modelled);
    - [addTodo] is an async function: in [addTodo] and [step] its body
      after [await requestNotificationPermission()] is run together with the
      call, the answer of the permission prompt being part of the event;
      [pageStep] separates the call from the answer of the prompt, with the
      events of the page that can come in between. *)

From stdpp Require Import list strings pretty.

Local Open Scope Z_scope.

(** ** JavaScript strings *)

Module JS.

Definition str : Type := list N.

(** An ASCII literal of the source as code units. *)
Definition lit (s : string) : str :=
  Ascii.N_of_ascii <$> String.list_ascii_of_string s.

(** ECMAScript WhiteSpace and LineTerminator code points: TAB, LF, VT, FF,
    CR, SP, NBSP, U+1680, U+2000..U+200A, U+2028, U+2029, U+202F, U+205F,
    U+3000 and U+FEFF (all of them in the basic plane, hence one code unit
    each). *)
Definition isWhite (c : N) : bool :=
  ((9 <=? c) && (c <=? 13) || (c =? 32) || (c =? 160) || (c =? 5760)
   || (8192 <=? c) && (c <=? 8202) || (c =? 8232) || (c =? 8233)
   || (c =? 8239) || (c =? 8287) || (c =? 12288) || (c =? 65279))%N.

Fixpoint trimStart (s : str) : str :=
  match s with
  | c :: s' => if isWhite c then trimStart s' else s
  | [] => []
  end.

Definition trimEnd (s : str) : str := reverse (trimStart (reverse s)).

(** [s.trim()] *)
Definition trim (s : str) : str := trimEnd (trimStart s).

(** [s.split(sep)] for a separator of one code unit: [n] occurrences of the
    separator give [n + 1] pieces, and the empty string gives one empty
    piece. *)
Fixpoint split (sep : N) (s : str) : list str :=
  match s with
  | [] => [[]]
  | c :: s' =>
      if (c =? sep)%N then [] :: split sep s'
      else match split sep s' with
           | p :: ps => (c :: p) :: ps
           | [] => [[c]]
           end
  end.

(** [pieces.join(sep)] *)
Fixpoint join (sep : N) (pieces : list str) : str :=
  match pieces with
  | [] => []
  | [p] => p
  | p :: ps => p ++ sep :: join sep ps
  end.

(** Truthiness of a string: the empty string is the only falsy one. *)
Definition truthy (s : str) : bool :=
  match s with [] => false | _ :: _ => true end.

(** [n.toString()] of an integral number of magnitude below 1e21, which a
    reading of [Date.now()] always is: the decimal digits, with a minus
    sign in front of a negative number. *)
Definition toString (n : Z) : str := lit (pretty n).

Definition comma : N := 44.

End JS.

(** ** Data model *)

(** A [Date] object: a finite time value (milliseconds since the epoch), or
    the invalid date whose time value is NaN. *)
Inductive Date : Type :=
  | ValidDate (ms : Z)
  | InvalidDate.

(** [d <= now] where [now] is [new Date()], always a valid date: both sides
    are converted to their time values, and every comparison with NaN is
    false. *)
Definition date_le (d : Date) (now : Z) : bool :=
  match d with
  | ValidDate ms => ms <=? now
  | InvalidDate => false
  end.

(** [interface Todo]; the two optional fields are options. *)
Record Todo : Type := mkTodo {
  id : JS.str;
  title : JS.str;
  completed : bool;
  tags : list JS.str;
  color : JS.str;
  dueDate : option Date;
  reminderShown : option bool
}.

(** [NotificationPermission] *)
Inductive Permission : Type :=
  | PermDefault
  | PermGranted
  | PermDenied.

(** A platform notification: [new Notification(title, { body, icon })]. *)
Record SystemNotification : Type := mkSystemNotification {
  sn_title : JS.str;
  sn_body : JS.str;
  sn_icon : JS.str
}.

#[global] Instance Date_eq_dec : EqDecision Date.
Proof. solve_decision. Defined.
#[global] Instance Todo_eq_dec : EqDecision Todo.
Proof. solve_decision. Defined.
#[global] Instance Permission_eq_dec : EqDecision Permission.
Proof. solve_decision. Defined.

(** [!todo.reminderShown] is true for [undefined] and for [false]. *)
Definition flagged (todo : Todo) : bool :=
  match reminderShown todo with
  | Some b => b
  | None => false
  end.

(** [newTags.split(",").map((tag) => tag.trim()).filter((tag) => tag)] *)
Definition parseTags (newTags : JS.str) : list JS.str :=
  filter (λ tag, JS.truthy tag) (JS.trim <$> JS.split JS.comma newTags).

(** [COLOR_OPTIONS]: the six swatches of the colour picker. *)
Inductive ColorOption : Type :=
  | ColorDefault
  | ColorRed
  | ColorBlue
  | ColorYellow
  | ColorPurple
  | ColorPink.

(** The [value] field of a colour option. *)
Definition color_value (c : ColorOption) : JS.str :=
  match c with
  | ColorDefault => JS.lit "gray"
  | ColorRed => JS.lit "red"
  | ColorBlue => JS.lit "blue"
  | ColorYellow => JS.lit "yellow"
  | ColorPurple => JS.lit "purple"
  | ColorPink => JS.lit "pink"
  end.

(** What the page takes from the browser as a function: the parser behind
    [new Date(string)]. *)
Class Browser : Type := {
  Date_parse : JS.str → Date
}.

(** ** The state of the component

    The first eight fields are the [useState] cells, in the order of the
    source.  [dismissTimer] is the deadline of the timeout armed by the
    dismissal effect, if one is armed, and [dispatched] is the log of the
    platform notifications constructed so far. *)
Record State : Type := mkState {
  todos : list Todo;
  newTitle : JS.str;
  newTags : JS.str;
  newColor : JS.str;
  newDueDate : JS.str;
  newDueTime : JS.str;
  notifications : list JS.str;
  notificationPermission : Permission;
  dismissTimer : option Z;
  dispatched : list SystemNotification
}.

(** The initial values of the cells; no timeout is armed on mount because the
    queue is empty. *)
Definition init : State :=
  {| todos := []; newTitle := []; newTags := []; newColor := JS.lit "gray";
     newDueDate := []; newDueTime := []; notifications := [];
     notificationPermission := PermDefault;
     dismissTimer := None; dispatched := [] |}.

Definition setTodos (f : list Todo → list Todo) (s : State) : State :=
  mkState (f (todos s)) (newTitle s) (newTags s) (newColor s) (newDueDate s)
    (newDueTime s) (notifications s) (notificationPermission s)
    (dismissTimer s) (dispatched s).

Definition setNewTitle (v : JS.str) (s : State) : State :=
  mkState (todos s) v (newTags s) (newColor s) (newDueDate s)
    (newDueTime s) (notifications s) (notificationPermission s)
    (dismissTimer s) (dispatched s).

Definition setNewTags (v : JS.str) (s : State) : State :=
  mkState (todos s) (newTitle s) v (newColor s) (newDueDate s)
    (newDueTime s) (notifications s) (notificationPermission s)
    (dismissTimer s) (dispatched s).

Definition setNewColor (v : JS.str) (s : State) : State :=
  mkState (todos s) (newTitle s) (newTags s) v (newDueDate s)
    (newDueTime s) (notifications s) (notificationPermission s)
    (dismissTimer s) (dispatched s).

Definition setNewDueDate (v : JS.str) (s : State) : State :=
  mkState (todos s) (newTitle s) (newTags s) (newColor s) v
    (newDueTime s) (notifications s) (notificationPermission s)
    (dismissTimer s) (dispatched s).

Definition setNewDueTime (v : JS.str) (s : State) : State :=
  mkState (todos s) (newTitle s) (newTags s) (newColor s) (newDueDate s)
    v (notifications s) (notificationPermission s)
    (dismissTimer s) (dispatched s).

Definition setNotificationPermission (v : Permission) (s : State) : State :=
  mkState (todos s) (newTitle s) (newTags s) (newColor s) (newDueDate s)
    (newDueTime s) (notifications s) v (dismissTimer s) (dispatched s).

(** [{ ...todo, reminderShown: v }] and [{ ...todo, completed: v }] *)
Definition withReminderShown (v : bool) (todo : Todo) : Todo :=
  mkTodo (id todo) (title todo) (completed todo) (tags todo) (color todo)
    (dueDate todo) (Some v).

Definition withCompleted (v : bool) (todo : Todo) : Todo :=
  mkTodo (id todo) (title todo) v (tags todo) (color todo)
    (dueDate todo) (reminderShown todo).

(** ** Effects of the updater passed to [setTodos] by [checkReminders]

    While it maps over the tasks, the updater queues
    [setNotifications((prev) => [...prev, message])] updates and constructs
    platform notifications.  The queued updates are applied in order, so the
    monad threads the queue they will have produced, whether any update was
    queued at all (a new array re-runs the dismissal effect), and the log of
    platform notifications.  [array.map] with such a callback is stdpp's
    [mapM], left to right. *)
Record Fx : Type := mkFx {
  fx_notifications : list JS.str;
  fx_updated : bool;
  fx_dispatched : list SystemNotification
}.

Definition M (A : Type) : Type := Fx → A * Fx.

#[global] Instance M_ret : MRet M := λ A a fx, (a, fx).

#[global] Instance M_bind : MBind M :=
  λ A B k m fx, let '(a, fx') := m fx in k a fx'.

Definition setNotifications (f : list JS.str → list JS.str) : M unit :=
  λ fx, (tt, mkFx (f (fx_notifications fx)) true (fx_dispatched fx)).

Definition newNotification (n : SystemNotification) : M unit :=
  λ fx, (tt, mkFx (fx_notifications fx) (fx_updated fx)
                  (fx_dispatched fx ++ [n])).

(** ** The reminder monitor *)

(** The condition of line 57:
    [todo.dueDate && !todo.reminderShown && !todo.completed
     && todo.dueDate <= now].  A [Date] object is truthy, also when it is
    invalid. *)
Definition eligible (now : Z) (todo : Todo) : bool :=
  match dueDate todo with
  | Some due =>
      negb (flagged todo) && negb (completed todo) && date_le due now
  | None => false
  end.

(** The callback of [prevTodos.map] in [checkReminders] (lines 56-73);
    [permission] is the [notificationPermission] the effect closed over. *)
Definition remind (now : Z) (permission : Permission) (todo : Todo) : M Todo :=
  if eligible now todo then
    let message := JS.lit "Reminder: " ++ title todo in
    setNotifications (λ prev, prev ++ [message]) ;;
    (if decide (permission = PermGranted)
     then newNotification
            (mkSystemNotification (JS.lit "Todo Reminder") (title todo)
               (JS.lit "/favicon.ico"))
     else mret tt) ;;
    mret (withReminderShown true todo)
  else mret todo.

(** The body of the dismissal effect (lines 82-89), run at time [now] for the
    queue [queue]: the cleanup of the previous run has cleared its timeout,
    and a new one is armed for five seconds later if the queue is not
    empty. *)
Definition armDismissal (now : Z) (queue : list JS.str) : option Z :=
  if (0 <? length queue)%nat then Some (now + 5000) else None.

(** [checkReminders], run by the interval at a moment when [new Date()] is
    [now], followed by the dismissal effect when the queue was updated. *)
Definition checkReminders (now : Z) (s : State) : State :=
  let '(todos', fx) :=
    mapM (remind now (notificationPermission s)) (todos s)
      (mkFx (notifications s) false (dispatched s)) in
  mkState todos' (newTitle s) (newTags s) (newColor s) (newDueDate s)
    (newDueTime s) (fx_notifications fx) (notificationPermission s)
    (if fx_updated fx then armDismissal now (fx_notifications fx)
     else dismissTimer s)
    (fx_dispatched fx).

(** The timeout callback of the dismissal effect,
    [setNotifications((prev) => prev.slice(1))], followed by the effect,
    which the new array re-runs.  The callback only runs when a timeout is
    armed and its delay has passed; at any other moment this event does not
    happen and the state stays as it is. *)
Definition dismiss (now : Z) (s : State) : State :=
  match dismissTimer s with
  | Some deadline =>
      if deadline <=? now then
        let queue := drop 1 (notifications s) in
        mkState (todos s) (newTitle s) (newTags s) (newColor s)
          (newDueDate s) (newDueTime s) queue (notificationPermission s)
          (armDismissal now queue) (dispatched s)
      else s
  | None => s
  end.

(** ** The task store *)

(** [requestNotificationPermission] (lines 42-49).  [answer] is [None] when
    the platform has no [Notification], and otherwise what
    [Notification.requestPermission()] resolves to if it is called. *)
Definition requestNotificationPermission
    (answer : option Permission) (s : State) : State :=
  match answer with
  | Some permission =>
      if decide (notificationPermission s = PermDefault)
      then setNotificationPermission permission s
      else s
  | None => s
  end.

(** [addTodo] (lines 91-120); [now] is the reading of [Date.now()]. *)
Definition addTodo `{Browser} (now : Z) (answer : option Permission)
    (s : State) : State :=
  if negb (JS.truthy (JS.trim (newTitle s))) then s
  else
    let '(dueDate, s1) :=
      if JS.truthy (newDueDate s) && JS.truthy (newDueTime s)
      then (Some (Date_parse (newDueDate s ++ JS.lit "T" ++ newDueTime s)),
            requestNotificationPermission answer s)
      else (None, s) in
    let todo :=
      {| id := JS.toString now;
         title := JS.trim (newTitle s);
         completed := false;
         tags := parseTags (newTags s);
         color := newColor s;
         dueDate := dueDate;
         reminderShown := Some false |} in
    setNewDueTime [] (setNewDueDate [] (setNewColor (JS.lit "gray")
      (setNewTags [] (setNewTitle [] (setTodos (λ prev, prev ++ [todo]) s1))))).

(** The callback of [prev.map] in [toggleTodo] (line 123). *)
Definition toggleOne (i : JS.str) (todo : Todo) : Todo :=
  if decide (id todo = i) then withCompleted (negb (completed todo)) todo
  else todo.

Definition toggleTodo (i : JS.str) (s : State) : State :=
  setTodos (λ prev, toggleOne i <$> prev) s.

(** [deleteTodo] (lines 126-128). *)
Definition deleteTodo (i : JS.str) (s : State) : State :=
  setTodos (λ prev, filter (λ todo, id todo ≠ i) prev) s.

(** ** Events and runs *)

Inductive Event : Type :=
  | ChangeTitle (v : JS.str)
  | ChangeTags (v : JS.str)
  | ChangeDueDate (v : JS.str)
  | ChangeDueTime (v : JS.str)
  | PickColor (c : ColorOption)
  | Add (now : Z) (answer : option Permission)
  | Toggle (i : JS.str)
  | Delete (i : JS.str)
  | Tick (now : Z)
  | Dismiss (now : Z).

Definition step `{Browser} (e : Event) (s : State) : State :=
  match e with
  | ChangeTitle v => setNewTitle v s
  | ChangeTags v => setNewTags v s
  | ChangeDueDate v => setNewDueDate v s
  | ChangeDueTime v => setNewDueTime v s
  | PickColor c => setNewColor (color_value c) s
  | Add now answer => addTodo now answer s
  | Toggle i => toggleTodo i s
  | Delete i => deleteTodo i s
  | Tick now => checkReminders now s
  | Dismiss now => dismiss now s
  end.

Fixpoint run `{Browser} (es : list Event) (s : State) : State :=
  match es with
  | [] => s
  | e :: es' => run es' (step e s)
  end.

(** ** The life of one task

    Every handler treats the tasks one by one: the [map] callbacks rewrite a
    task in place and the [filter] predicate keeps or drops it.  [evolve]
    is what one event does to one task that is in the list ([None]: the task
    is removed), [life] follows a task through a sequence of events, and
    [created] is what an event appends. *)
Definition evolve (e : Event) (todo : Todo) : option Todo :=
  match e with
  | Toggle i => Some (toggleOne i todo)
  | Delete i => if decide (id todo ≠ i) then Some todo else None
  | Tick now => Some (remind now PermDefault todo (mkFx [] false [])).1
  | _ => Some todo
  end.

Fixpoint life (es : list Event) (todo : Todo) : option Todo :=
  match es with
  | [] => Some todo
  | e :: es' => evolve e todo ≫= life es'
  end.

(** How often [reminderShown] goes from falsy to [true] in the life of a
    task. *)
Fixpoint rises (es : list Event) (todo : Todo) : nat :=
  match es with
  | [] => 0
  | e :: es' =>
      match evolve e todo with
      | Some todo' =>
          ((if negb (flagged todo) && flagged todo' then 1 else 0)
           + rises es' todo')%nat
      | None => 0%nat
      end
  end.

Definition created `{Browser} (e : Event) (s : State) : list Todo :=
  match e with
  | Add now answer => drop (length (todos s)) (todos (addTodo now answer s))
  | _ => []
  end.

(** The tasks created during a run, as they are at its end. *)
Fixpoint born `{Browser} (es : list Event) (s : State) : list Todo :=
  match es with
  | [] => []
  | e :: es' => omap (life es') (created e s) ++ born es' (step e s)
  end.

(** The readings of [Date.now()] at which a run created a task. *)
Fixpoint creationTimes `{Browser} (es : list Event) (s : State) : list Z :=
  match es with
  | [] => []
  | e :: es' =>
      match e with
      | Add now _ => if JS.truthy (JS.trim (newTitle s)) then [now] else []
      | _ => []
      end ++ creationTimes es' (step e s)
  end.

(** Whether a sequence of events toggles the identifier [i]. *)
Definition toggles (i : JS.str) (e : Event) : Prop :=
  match e with
  | Toggle j => j = i
  | _ => False
  end.

(** ** The toast queue left alone

    [fireDismissal] is the timeout callback running exactly at its deadline,
    [drain n] is [n] such dismissals with nothing else updating the queue in
    between, and [removalTime s i] is the moment at which the entry at
    position [i] of the queue of [s] is then removed. *)
Definition fireDismissal (s : State) : State :=
  match dismissTimer s with
  | Some deadline => dismiss deadline s
  | None => s
  end.

Definition drain (n : nat) (s : State) : State := Nat.iter n fireDismissal s.


(** The display string of a reminder, [`Reminder: ${todo.title}`]. *)
Definition reminderMessage (todo : Todo) : JS.str :=
  JS.lit "Reminder: " ++ title todo.

(** The platform notification of a reminder. *)
Definition systemReminder (todo : Todo) : SystemNotification :=
  mkSystemNotification (JS.lit "Todo Reminder") (title todo)
    (JS.lit "/favicon.ico").

(** What a tick does to one task, without the effects. *)
Definition flagIfDue (now : Z) (todo : Todo) : Todo :=
  if eligible now todo then withReminderShown true todo else todo.

(** ** A browser for the examples

    As far as the examples go, [new Date(string)] of a browser whose time
    zone is UTC. *)
Definition utcBrowser : Browser :=
  {| Date_parse := λ v,
       if decide (v = JS.lit "1970-01-01T00:01") then ValidDate 60000
       else InvalidDate |}.

(** The scenario of the specification: the task "Pay bill", due at 00:01:00
    UTC of the first day of 1970, added two seconds before that moment with
    the notification permission granted at the prompt. *)
Definition payBillEvents : list Event :=
  [ChangeTitle (JS.lit "Pay bill"); ChangeDueDate (JS.lit "1970-01-01");
   ChangeDueTime (JS.lit "00:01"); Add 58000 (Some PermGranted)].

Definition payBill : State := run (H := utcBrowser) payBillEvents init.

Definition payBillTodo : Todo :=
  {| id := JS.lit "58000"; title := JS.lit "Pay bill"; completed := false;
     tags := []; color := JS.lit "gray";
     dueDate := Some (ValidDate 60000); reminderShown := Some false |}.

(** The task is completed one second before it is due, reopened later, and
    a tick comes one second after the due time. *)
Definition completeEarlyEvents : list Event :=
  payBillEvents ++ [Tick 59000; Toggle (JS.lit "58000")].

Definition reopenEvents : list Event :=
  completeEarlyEvents ++ [Toggle (JS.lit "58000"); Tick 61000].

(** A second task with the same due time; the tick at the due time queues
    both reminders. *)
Definition twoDueEvents : list Event :=
  payBillEvents ++
  [ChangeTitle (JS.lit "Call bank"); ChangeDueDate (JS.lit "1970-01-01");
   ChangeDueTime (JS.lit "00:01"); Add 58500 None; Tick 60000].

(** Two tasks added while [Date.now()] reads the same millisecond. *)
Definition sameMillisecondEvents : list Event :=
  [ChangeTitle (JS.lit "a"); Add 1000 None;
   ChangeTitle (JS.lit "b"); Add 1000 None].

(** A filled form: title "x", the tags input of the specification. *)
Definition tagsForm : State :=
  setNewTags (JS.lit "a, ,b ,") (setNewTitle (JS.lit "x") init).

(** A filled form whose title is a space, a tab and an ideographic space. *)
Definition blankTitleForm : State :=
  run (H := utcBrowser)
    [ChangeTitle [32; 9; 12288]%N; ChangeTags (JS.lit "home");
     ChangeDueDate (JS.lit "1970-01-01"); ChangeDueTime (JS.lit "00:01");
     PickColor ColorRed]
    payBill.

(** ** What the page renders *)

(** An entry of the [COLOR_OPTIONS] table (lines 22-29). *)
Record ColorEntry : Type := mkColorEntry {
  ce_name : JS.str;
  ce_value : JS.str;
  ce_class : JS.str
}.

Definition COLOR_OPTIONS : list ColorEntry :=
  [mkColorEntry (JS.lit "Default") (JS.lit "gray") (JS.lit "border-l-gray-400");
   mkColorEntry (JS.lit "Red") (JS.lit "red") (JS.lit "border-l-red-400");
   mkColorEntry (JS.lit "Blue") (JS.lit "blue") (JS.lit "border-l-blue-400");
   mkColorEntry (JS.lit "Yellow") (JS.lit "yellow")
     (JS.lit "border-l-yellow-400");
   mkColorEntry (JS.lit "Purple") (JS.lit "purple")
     (JS.lit "border-l-purple-400");
   mkColorEntry (JS.lit "Pink") (JS.lit "pink") (JS.lit "border-l-pink-400")].

(** The border class of a task card (line 242):
    [COLOR_OPTIONS.find((c) => c.value === todo.color)?.class
     || "border-l-gray-400"]. *)
Definition colorClass (todo : Todo) : JS.str :=
  match List.find (λ c, bool_decide (ce_value c = color todo)) COLOR_OPTIONS
  with
  | Some c => if JS.truthy (ce_class c) then ce_class c
              else JS.lit "border-l-gray-400"
  | None => JS.lit "border-l-gray-400"
  end.

(** [d < now] for [now = new Date()]; false for the invalid date. *)
Definition date_lt (d : Date) (now : Z) : bool :=
  match d with
  | ValidDate ms => ms <? now
  | InvalidDate => false
  end.

(** Whether the due line of a task card is shown in red at a rendering at
    time [now] (lines 273-284): the line is there when [todo.dueDate] is, and
    it is red when [todo.dueDate < new Date() && !todo.completed]. *)
Definition overdue (now : Z) (todo : Todo) : bool :=
  match dueDate todo with
  | Some due => date_lt due now && negb (completed todo)
  | None => false
  end.

(** [disabled={!newTitle.trim()}] of the add button (line 224). *)
Definition addDisabled (s : State) : bool :=
  negb (JS.truthy (JS.trim (newTitle s))).

(** ** Well-formed tasks and states

    What every task made by [addTodo] from the form looks like, and what the
    handlers keep. *)
Definition wfTodo (todo : Todo) : Prop :=
  title todo ≠ []
  ∧ JS.trim (title todo) = title todo
  ∧ Forall (λ tag, tag ≠ [] ∧ JS.trim tag = tag ∧ JS.comma ∉ tag) (tags todo)
  ∧ color todo ∈ ce_value <$> COLOR_OPTIONS
  ∧ (∃ b, reminderShown todo = Some b)
  ∧ (flagged todo = true → ∃ ms, dueDate todo = Some (ValidDate ms)).

Definition wfState (s : State) : Prop :=
  Forall wfTodo (todos s)
  ∧ newColor s ∈ ce_value <$> COLOR_OPTIONS
  ∧ Forall (λ message, ∃ t, message = JS.lit "Reminder: " ++ t ∧ t ≠ []
                           ∧ JS.trim t = t)
      (notifications s)
  ∧ (notificationPermission s ≠ PermGranted → dispatched s = []).

(** Whether an event asks the platform for the notification permission:
    an [addTodo] with a title, a date and a time, on a platform that has
    [Notification], while the permission is still "default". *)
Definition prompts (e : Event) (s : State) : option Permission :=
  match e with
  | Add _ (Some answer) =>
      if JS.truthy (JS.trim (newTitle s)) && JS.truthy (newDueDate s)
         && JS.truthy (newDueTime s)
         && bool_decide (notificationPermission s = PermDefault)
      then Some answer else None
  | _ => None
  end.

(** ** [addTodo] across its [await]

    A call of [addTodo] that has a due date to set, on a platform that has
    [Notification] and while the permission is "default", stops at
    [await Notification.requestPermission()] (lines 44 and 98) until the
    prompt is answered.  No cell has been written by then; the rest of the
    body (lines 45 and 101-119) runs at the answer, with the form as the
    call saw it, and the page handles other events in between.  In every
    other case the call runs to its end before the next event. *)

(** What a suspended call holds: [newTitle], [newTags], [newColor] of its
    closure and the [dueDate] it has computed at line 96. *)
Record Suspended : Type := mkSuspended {
  su_title : JS.str;
  su_tags : JS.str;
  su_color : JS.str;
  su_dueDate : Date
}.

(** The cells of the component and the calls of [addTodo] waiting for the
    prompt, oldest first. *)
Record Page : Type := mkPage {
  cells : State;
  suspended : list Suspended
}.

(** Whether a call of [addTodo] in the state [s] reaches the prompt, on a
    platform that has [Notification]: lines 92, 95 and 43. *)
Definition suspends (s : State) : bool :=
  JS.truthy (JS.trim (newTitle s))
  && (JS.truthy (newDueDate s) && JS.truthy (newDueTime s))
  && bool_decide (notificationPermission s = PermDefault).

Definition suspend `{Browser} (s : State) : Suspended :=
  mkSuspended (newTitle s) (newTags s) (newColor s)
    (Date_parse (newDueDate s ++ JS.lit "T" ++ newDueTime s)).

(** The rest of a suspended call, run when the prompt is answered with
    [permission] and [Date.now()] reads [now]: line 45, then lines
    101-119. *)
Definition resume (now : Z) (permission : Permission) (call : Suspended)
    (s : State) : State :=
  let s1 := setNotificationPermission permission s in
  let todo :=
    {| id := JS.toString now;
       title := JS.trim (su_title call);
       completed := false;
       tags := parseTags (su_tags call);
       color := su_color call;
       dueDate := Some (su_dueDate call);
       reminderShown := Some false |} in
  setNewDueTime [] (setNewDueDate [] (setNewColor (JS.lit "gray")
    (setNewTags [] (setNewTitle [] (setTodos (λ prev, prev ++ [todo]) s1))))).

(** [Submit now supported]: a call of [addTodo] (the add button or Enter in
    the title input); [supported] is ["Notification" in window] and [now] is
    what [Date.now()] reads if the call runs to its end at once.
    [Answer now permission]: the prompt of the oldest suspended call is
    answered.  [Plain e]: an event of [step]. *)
Inductive PageEvent : Type :=
  | Submit (now : Z) (supported : bool)
  | Answer (now : Z) (permission : Permission)
  | Plain (e : Event).

Definition pageStep `{Browser} (e : PageEvent) (pg : Page) : Page :=
  match e with
  | Submit now supported =>
      if supported && suspends (cells pg)
      then mkPage (cells pg) (suspended pg ++ [suspend (cells pg)])
      else mkPage (addTodo now None (cells pg)) (suspended pg)
  | Answer now permission =>
      match suspended pg with
      | call :: rest => mkPage (resume now permission call (cells pg)) rest
      | [] => pg
      end
  | Plain e => mkPage (step e (cells pg)) (suspended pg)
  end.

Fixpoint pageRun `{Browser} (es : list PageEvent) (pg : Page) : Page :=
  match es with
  | [] => pg
  | e :: es' => pageRun es' (pageStep e pg)
  end.

(** The form of the scenario, filled in and not yet submitted. *)
Definition payBillForm : Page :=
  mkPage
    (run (H := utcBrowser)
       [ChangeTitle (JS.lit "Pay bill"); ChangeDueDate (JS.lit "1970-01-01");
        ChangeDueTime (JS.lit "00:01")] init)
    [].

(** * Properties *)

(** ** Strings *)

Lemma trimStart_nil_iff (s : JS.str) :
  JS.trimStart s = [] ↔ Forall (λ c, JS.isWhite c) s.
Proof.
  induction s as [|c s IH]; simpl.
  - split; [constructor | done].
  - destruct (JS.isWhite c) eqn:Hc.
    + rewrite IH. split.
      * intros Hs. constructor; [by rewrite Hc | done].
      * by inversion 1.
    + split; [done |]. inversion 1 as [|? ? Hw]. by rewrite Hc in Hw.
Qed.

Lemma trimStart_suffix (s : JS.str) :
  ∃ pre, s = pre ++ JS.trimStart s ∧ Forall (λ c, JS.isWhite c) pre.
Proof.
  induction s as [|c s (pre & Hs & Hpre)]; simpl.
  - by exists [].
  - destruct (JS.isWhite c) eqn:Hc.
    + exists (c :: pre). split; [simpl; congruence |].
      constructor; [by rewrite Hc | done].
    + by exists [].
Qed.

Lemma trimStart_head (s : JS.str) (c : N) (t : JS.str) :
  JS.trimStart s = c :: t → JS.isWhite c = false.
Proof.
  induction s as [|d s IH]; simpl; [done |].
  destruct (JS.isWhite d) eqn:Hd; [done |]. congruence.
Qed.

Lemma trimStart_fixed (c : N) (t : JS.str) :
  JS.isWhite c = false → JS.trimStart (c :: t) = c :: t.
Proof. intros Hc. simpl. by rewrite Hc. Qed.

Lemma trimStart_idemp (s : JS.str) :
  JS.trimStart (JS.trimStart s) = JS.trimStart s.
Proof.
  destruct (JS.trimStart s) as [|c t] eqn:Hs; [done |].
  apply trimStart_fixed. by eapply trimStart_head.
Qed.

Lemma trimStart_app_black (s : JS.str) (c : N) :
  JS.isWhite c = false → ∃ u, JS.trimStart (s ++ [c]) = u ++ [c].
Proof.
  intros Hc. induction s as [|d s (u & Hu)]; simpl.
  - rewrite Hc. by exists [].
  - destruct (JS.isWhite d); [by exists u |]. by exists (d :: s).
Qed.

(** [trim] gives the empty string exactly on the strings that are empty or
    consist of white space only. *)
Lemma trim_nil_iff (s : JS.str) :
  JS.trim s = [] ↔ Forall (λ c, JS.isWhite c) s.
Proof.
  unfold JS.trim, JS.trimEnd. rewrite <- trimStart_nil_iff.
  destruct (JS.trimStart s) as [|c t] eqn:Hs; [done |].
  split; [| done]. intros Hnil.
  apply (f_equal reverse) in Hnil. rewrite reverse_involutive in Hnil.
  rewrite reverse_cons in Hnil.
  destruct (trimStart_app_black (reverse t) c) as (u & Hu).
  { by eapply trimStart_head. }
  rewrite Hu in Hnil. simpl in Hnil. by destruct u.
Qed.

Lemma truthy_trim_iff (s : JS.str) :
  JS.truthy (JS.trim s) = false ↔ Forall (λ c, JS.isWhite c) s.
Proof.
  rewrite <- trim_nil_iff. by destruct (JS.trim s).
Qed.

(** A trimmed string is the middle of the original, between two runs of white
    space. *)
Lemma trim_middle (s : JS.str) :
  ∃ pre post, s = pre ++ JS.trim s ++ post
    ∧ Forall (λ c, JS.isWhite c) pre ∧ Forall (λ c, JS.isWhite c) post.
Proof.
  destruct (trimStart_suffix s) as (pre & Hs & Hpre).
  destruct (trimStart_suffix (reverse (JS.trimStart s))) as (post & Hr & Hpost).
  exists pre, (reverse post). split_and!; [| done | by apply Forall_reverse].
  unfold JS.trim, JS.trimEnd. rewrite <- reverse_app, <- Hr.
  by rewrite reverse_involutive.
Qed.

Lemma trim_idemp (s : JS.str) : JS.trim (JS.trim s) = JS.trim s.
Proof.
  unfold JS.trim at 2 3. unfold JS.trimEnd.
  destruct (JS.trimStart s) as [|c t] eqn:Hs; [done |].
  assert (JS.isWhite c = false) as Hc by by eapply trimStart_head.
  rewrite reverse_cons.
  destruct (trimStart_app_black (reverse t) c Hc) as (u & Hu).
  assert (JS.trimStart (u ++ [c]) = u ++ [c]) as Hfix.
  { rewrite <- Hu. apply trimStart_idemp. }
  rewrite Hu, reverse_app. simpl.
  unfold JS.trim, JS.trimEnd. rewrite trimStart_fixed by done.
  change (c :: reverse u) with (reverse [c] ++ reverse u).
  by rewrite <- reverse_app, reverse_involutive, Hfix.
Qed.

Lemma split_nonempty (sep : N) (s : JS.str) : JS.split sep s ≠ [].
Proof.
  induction s as [|c s IH]; simpl; [done |].
  destruct (c =? sep)%N; [done |]. by destruct (JS.split sep s).
Qed.

(** Splitting cuts the string at its separators and nowhere else. *)
Lemma join_split (sep : N) (s : JS.str) : JS.join sep (JS.split sep s) = s.
Proof.
  induction s as [|c s IH]; simpl; [done |].
  destruct (c =? sep)%N eqn:Hc.
  - apply N.eqb_eq in Hc as ->. simpl.
    pose proof (split_nonempty sep s).
    destruct (JS.split sep s) as [|p ps]; [done |]. by rewrite IH.
  - pose proof (split_nonempty sep s).
    destruct (JS.split sep s) as [|p ps]; [done |].
    destruct ps; simpl in *; by rewrite <- IH.
Qed.

Lemma split_no_sep (sep : N) (s : JS.str) :
  Forall (λ piece, sep ∉ piece) (JS.split sep s).
Proof.
  induction s as [|c s IH]; simpl.
  - repeat constructor. by inversion 1.
  - destruct (c =? sep)%N eqn:Hc.
    + constructor; [by inversion 1 | done].
    + apply N.eqb_neq in Hc.
      destruct (JS.split sep s) as [|p ps].
      { repeat constructor. intros Hin%list_elem_of_singleton. congruence. }
      apply Forall_cons in IH as [Hp Hps].
      constructor; [| done].
      intros [Heq | Hin]%elem_of_cons; [congruence | done].
Qed.

Lemma split_piece (sep : N) (s : JS.str) :
  sep ∉ s → JS.split sep s = [s].
Proof.
  induction s as [|c s IH]; simpl; [done |]. intros Hs.
  apply not_elem_of_cons in Hs as [Hne Hs].
  destruct (c =? sep)%N eqn:Hc.
  - apply N.eqb_eq in Hc. congruence.
  - by rewrite IH.
Qed.

Lemma split_app (sep : N) (s t : JS.str) :
  JS.split sep (s ++ sep :: t) = JS.split sep s ++ JS.split sep t.
Proof.
  induction s as [|c s IH]; simpl.
  - by rewrite N.eqb_refl.
  - pose proof (split_nonempty sep s) as Hne. rewrite IH.
    destruct (c =? sep)%N; [done |]. by destruct (JS.split sep s).
Qed.

#[global] Instance lit_inj : Inj (=) (=) JS.lit.
Proof.
  intros v w Hvw. unfold JS.lit in Hvw.
  assert (Inj (=) (=) Ascii.N_of_ascii) as Hinj.
  { intros a b Hab. by rewrite <- (Ascii.ascii_N_embedding a),
      <- (Ascii.ascii_N_embedding b), Hab. }
  apply (inj (fmap Ascii.N_of_ascii)) in Hvw.
  by rewrite <- (String.string_of_list_ascii_of_string v),
    <- (String.string_of_list_ascii_of_string w), Hvw.
Qed.

(** Different clock readings print differently. *)
#[global] Instance toString_inj : Inj (=) (=) JS.toString.
Proof.
  intros m n Hmn. unfold JS.toString in Hmn.
  apply lit_inj in Hmn. by apply (inj pretty) in Hmn.
Qed.

(** ** Tags *)

Lemma parseTags_app (v w : JS.str) :
  parseTags (v ++ JS.comma :: w) = parseTags v ++ parseTags w.
Proof.
  unfold parseTags. by rewrite split_app, fmap_app, filter_app.
Qed.

Lemma parseTags_piece (v : JS.str) :
  JS.comma ∉ v →
  parseTags v = if JS.truthy (JS.trim v) then [JS.trim v] else [].
Proof.
  intros Hv. unfold parseTags. rewrite split_piece by done. simpl.
  rewrite filter_cons, filter_nil. by destruct (JS.trim v).
Qed.

Lemma trimStart_no_sep (c : N) (s : JS.str) : c ∉ s → c ∉ JS.trimStart s.
Proof.
  destruct (trimStart_suffix s) as (pre & Hs & _). intros Hc Hin.
  apply Hc. rewrite Hs, elem_of_app. by right.
Qed.

Lemma trim_no_sep (c : N) (s : JS.str) : c ∉ s → c ∉ JS.trim s.
Proof.
  intros Hc. unfold JS.trim, JS.trimEnd. rewrite elem_of_reverse.
  apply trimStart_no_sep. rewrite elem_of_reverse.
  by apply trimStart_no_sep.
Qed.

(** Every tag is a non-empty string without a comma and without white space
    at either end. *)
Lemma parseTags_wf (v : JS.str) :
  Forall (λ tag, tag ≠ [] ∧ JS.trim tag = tag ∧ JS.comma ∉ tag) (parseTags v).
Proof.
  unfold parseTags. apply Forall_forall. intros tag Htag.
  apply list_elem_of_filter in Htag as [Hne Hin].
  apply list_elem_of_fmap in Hin as (piece & -> & Hin).
  split_and!.
  - by destruct (JS.trim piece).
  - apply trim_idemp.
  - apply trim_no_sep.
    by eapply (proj1 (Forall_forall _ _) (split_no_sep JS.comma v)).
Qed.

(** ** The reminder monitor *)

Lemma M_ret_run {A : Type} (a : A) (fx : Fx) :
  (mret a : M A) fx = (a, fx).
Proof. done. Qed.

Lemma M_bind_run {A B : Type} (m : M A) (k : A → M B) (fx : Fx) :
  (m ≫= k) fx = k (m fx).1 (m fx).2.
Proof. unfold mbind, M_bind. by destruct (m fx). Qed.

Lemma remind_run (now : Z) (p : Permission) (todo : Todo) (fx : Fx) :
  remind now p todo fx =
    (flagIfDue now todo,
     if eligible now todo
     then mkFx (fx_notifications fx ++ [reminderMessage todo]) true
            (fx_dispatched fx ++
               if decide (p = PermGranted) then [systemReminder todo] else [])
     else fx).
Proof.
  unfold remind, flagIfDue. destruct (eligible now todo); [| done].
  destruct (decide (p = PermGranted)); simpl; [done |].
  by rewrite app_nil_r.
Qed.

Lemma mapM_remind (now : Z) (p : Permission) (l : list Todo) (fx : Fx) :
  let due := filter (λ todo, eligible now todo) l in
  mapM (remind now p) l fx =
    (flagIfDue now <$> l,
     mkFx (fx_notifications fx ++ (reminderMessage <$> due))
       (match due with [] => fx_updated fx | _ => true end)
       (fx_dispatched fx ++
          if decide (p = PermGranted) then systemReminder <$> due else [])).
Proof.
  revert fx. induction l as [|todo l IH]; intros fx.
  - destruct fx, (decide (p = PermGranted)); simpl; by rewrite !app_nil_r.
  - cbn [mapM]. rewrite M_bind_run, remind_run. cbn beta iota delta [fst snd].
    rewrite M_bind_run, IH. cbn beta iota zeta delta [fst snd].
    rewrite M_ret_run.
    rewrite filter_cons. destruct (eligible now todo) eqn:Hdue; simpl.
    + f_equal. rewrite <- !app_assoc. simpl.
      destruct (decide (p = PermGranted)), (filter _ l); simpl;
        by rewrite ?app_nil_r.
    + done.
Qed.

Lemma checkReminders_todos (now : Z) (s : State) :
  todos (checkReminders now s) = flagIfDue now <$> todos s.
Proof. unfold checkReminders. by rewrite mapM_remind. Qed.

Lemma checkReminders_notifications (now : Z) (s : State) :
  notifications (checkReminders now s) =
    notifications s
      ++ (reminderMessage <$> filter (λ todo, eligible now todo) (todos s)).
Proof. unfold checkReminders. by rewrite mapM_remind. Qed.

Lemma checkReminders_dispatched (now : Z) (s : State) :
  dispatched (checkReminders now s) =
    dispatched s ++
      if decide (notificationPermission s = PermGranted)
      then systemReminder <$> filter (λ todo, eligible now todo) (todos s)
      else [].
Proof. unfold checkReminders. by rewrite mapM_remind. Qed.

Lemma checkReminders_timer (now : Z) (s : State) :
  dismissTimer (checkReminders now s) =
    match filter (λ todo, eligible now todo) (todos s) with
    | [] => dismissTimer s
    | _ => Some (now + 5000)
    end.
Proof.
  unfold checkReminders. rewrite mapM_remind. simpl.
  destruct (filter _ (todos s)); [done |].
  unfold armDismissal. rewrite length_app. simpl.
  by destruct (notifications s).
Qed.

Lemma eligible_iff (now : Z) (todo : Todo) :
  eligible now todo = true ↔
    ∃ due, dueDate todo = Some due ∧ flagged todo = false
      ∧ completed todo = false ∧ date_le due now = true.
Proof.
  unfold eligible. destruct (dueDate todo) as [due|].
  - rewrite !andb_true_iff, !negb_true_iff. split.
    + intros [[Hf Hc] Hd]. by exists due.
    + by intros (due' & [= <-] & Hf & Hc & Hd).
  - split; [done | by intros (due & ? & _)].
Qed.

Lemma flagIfDue_fields (now : Z) (todo : Todo) :
  id (flagIfDue now todo) = id todo
  ∧ title (flagIfDue now todo) = title todo
  ∧ completed (flagIfDue now todo) = completed todo
  ∧ tags (flagIfDue now todo) = tags todo
  ∧ color (flagIfDue now todo) = color todo
  ∧ dueDate (flagIfDue now todo) = dueDate todo.
Proof. unfold flagIfDue. by destruct (eligible now todo). Qed.

(** ** The task store *)

Lemma addTodo_blank `{Browser} (now : Z) (answer : option Permission)
    (s : State) :
  JS.truthy (JS.trim (newTitle s)) = false → addTodo now answer s = s.
Proof. intros Hblank. unfold addTodo. by rewrite Hblank. Qed.

Lemma requestNotificationPermission_todos (answer : option Permission)
    (s : State) :
  todos (requestNotificationPermission answer s) = todos s.
Proof.
  unfold requestNotificationPermission.
  destruct answer; [| done]. by destruct (decide _).
Qed.

Lemma addTodo_appends `{Browser} (now : Z) (answer : option Permission)
    (s : State) :
  JS.truthy (JS.trim (newTitle s)) = true →
  ∃ todo,
    todos (addTodo now answer s) = todos s ++ [todo]
    ∧ id todo = JS.toString now
    ∧ title todo = JS.trim (newTitle s)
    ∧ completed todo = false
    ∧ tags todo = parseTags (newTags s)
    ∧ color todo = newColor s
    ∧ reminderShown todo = Some false.
Proof.
  intros Htitle. unfold addTodo. rewrite Htitle. simpl.
  destruct (JS.truthy (newDueDate s) && JS.truthy (newDueTime s)); simpl;
    rewrite ?requestNotificationPermission_todos; eexists; by split_and!.
Qed.

Lemma created_add `{Browser} (now : Z) (answer : option Permission)
    (s : State) :
  todos (addTodo now answer s) = todos s ++ created (Add now answer) s.
Proof.
  unfold created. destruct (JS.truthy (JS.trim (newTitle s))) eqn:Htitle.
  - destruct (addTodo_appends now answer s Htitle) as (todo & -> & _).
    by rewrite drop_app_length.
  - rewrite addTodo_blank by done. by rewrite drop_all, app_nil_r.
Qed.

Lemma created_unflagged `{Browser} (e : Event) (s : State) :
  Forall (λ todo, flagged todo = false ∧ completed todo = false) (created e s).
Proof.
  destruct e as [| | | | |now answer| | | |]; try by constructor.
  unfold created. destruct (JS.truthy (JS.trim (newTitle s))) eqn:Htitle.
  - destruct (addTodo_appends now answer s Htitle)
      as (todo & -> & _ & _ & Hc & _ & _ & Hr).
    rewrite drop_app_length. repeat constructor; [| done].
    unfold flagged. by rewrite Hr.
  - rewrite addTodo_blank by done. rewrite drop_all. constructor.
Qed.

Lemma dismiss_todos (now : Z) (s : State) : todos (dismiss now s) = todos s.
Proof.
  unfold dismiss. destruct (dismissTimer s) as [deadline|]; [| done].
  by destruct (deadline <=? now).
Qed.

Lemma evolve_tick (now : Z) (todo : Todo) :
  evolve (Tick now) todo = Some (flagIfDue now todo).
Proof. simpl. by rewrite remind_run. Qed.

Lemma omap_Some_fmap {A B : Type} (f : A → B) (l : list A) :
  omap (λ a, Some (f a)) l = f <$> l.
Proof. induction l as [|a l IH]; csimpl; [done |]. by rewrite IH. Qed.

Lemma omap_Some_id {A : Type} (l : list A) : omap (λ a, Some a) l = l.
Proof. induction l as [|a l IH]; csimpl; [done |]. by rewrite IH. Qed.

Lemma omap_filter_id (i : JS.str) (l : list Todo) :
  omap (λ todo, if decide (id todo ≠ i) then Some todo else None) l
  = filter (λ todo, id todo ≠ i) l.
Proof.
  induction l as [|todo l IH]; csimpl; [done |].
  rewrite filter_cons. destruct (decide (id todo ≠ i)); by rewrite IH.
Qed.

(** One event, seen from the task list: every task evolves on its own, in
    place, and the created task is appended. *)
Lemma todos_step `{Browser} (e : Event) (s : State) :
  todos (step e s) = omap (evolve e) (todos s) ++ created e s.
Proof.
  assert (∀ e', (∀ todo, evolve e' todo = Some todo) →
            omap (evolve e') (todos s) = todos s) as Hsame.
  { intros e' He'. rewrite <- (omap_Some_id (todos s)) at 2.
    apply list_omap_ext, Forall2_same_length_lookup_2; [done |].
    intros k todo todo' Hk Hk'. rewrite Hk in Hk'. injection Hk' as <-.
    apply He'. }
  destruct e as [v|v|v|v|c|now answer|i|i|now|now];
    try (rewrite Hsame by done; cbn [created step]; rewrite ?app_nil_r).
  - done.
  - done.
  - done.
  - done.
  - done.
  - apply created_add.
  - cbn [created]. rewrite app_nil_r.
    exact (eq_sym (omap_Some_fmap (toggleOne i) (todos s))).
  - cbn [created]. rewrite app_nil_r.
    exact (eq_sym (omap_filter_id i (todos s))).
  - cbn [created step]. rewrite app_nil_r, checkReminders_todos.
    rewrite <- (omap_Some_fmap (flagIfDue now)).
    apply list_omap_ext, Forall2_same_length_lookup_2; [done |].
    intros k todo todo' Hk Hk'. rewrite Hk in Hk'. injection Hk' as <-.
    symmetry. apply evolve_tick.
  - apply dismiss_todos.
Qed.

Lemma omap_life_cons (e : Event) (es : list Event) (l : list Todo) :
  omap (life (e :: es)) l = omap (life es) (omap (evolve e) l).
Proof.
  induction l as [|todo l IH]; csimpl; [done |].
  destruct (evolve e todo) as [todo'|]; csimpl;
    [destruct (life es todo'); [f_equal |] |]; exact IH.
Qed.

(** A run, seen from the task list: the tasks of the start that are still
    there, in their order, followed by the tasks created on the way. *)
Lemma todos_run `{Browser} (es : list Event) (s : State) :
  todos (run es s) = omap (life es) (todos s) ++ born es s.
Proof.
  revert s. induction es as [|e es IH]; intros s; simpl.
  - by rewrite omap_Some_id, app_nil_r.
  - rewrite IH, todos_step, omap_app, <- app_assoc.
    by rewrite <- (omap_life_cons e es (todos s)).
Qed.

(** ** The reminder latch *)

Lemma evolve_flag_mono (e : Event) (todo todo' : Todo) :
  evolve e todo = Some todo' → flagged todo = true → flagged todo' = true.
Proof.
  destruct e as [| | | | | |i|i|now|]; try (by intros [= <-]).
  - intros [= <-]. unfold toggleOne. by destruct (decide _).
  - simpl. destruct (decide _); [by intros [= <-] | done].
  - rewrite evolve_tick. intros [= <-] Hf. unfold flagIfDue.
    by destruct (eligible now todo).
Qed.

Lemma evolve_flag_rise (e : Event) (todo todo' : Todo) :
  evolve e todo = Some todo' → flagged todo = false → flagged todo' = true →
  ∃ now due, e = Tick now ∧ dueDate todo = Some due
    ∧ completed todo = false ∧ date_le due now = true.
Proof.
  destruct e as [| | | | | |i|i|now|]; try (intros [= <-]; congruence).
  - intros [= <-]. unfold toggleOne.
    destruct (decide _); unfold flagged; simpl; congruence.
  - simpl. destruct (decide _); [intros [= <-]; congruence | done].
  - rewrite evolve_tick. intros [= <-] Hf Hf'. unfold flagIfDue in Hf'.
    destruct (eligible now todo) eqn:Hdue; [| congruence].
    apply eligible_iff in Hdue as (due & Hd & _ & Hc & Hle).
    by exists now, due.
Qed.

Lemma rises_flagged (es : list Event) (todo : Todo) :
  flagged todo = true → rises es todo = 0%nat.
Proof.
  revert todo. induction es as [|e es IH]; intros todo Hf; simpl; [done |].
  destruct (evolve e todo) as [todo'|] eqn:He; [| done].
  rewrite Hf. simpl. apply IH. by eapply evolve_flag_mono.
Qed.

Lemma rises_le_1 (es : list Event) (todo : Todo) : (rises es todo ≤ 1)%nat.
Proof.
  revert todo. induction es as [|e es IH]; intros todo; simpl; [lia |].
  destruct (evolve e todo) as [todo'|] eqn:He; [| lia].
  destruct (flagged todo) eqn:Hf; simpl; [apply IH |].
  destruct (flagged todo') eqn:Hf'; simpl; [| apply IH].
  rewrite rises_flagged by done. lia.
Qed.

(** C1: [reminderShown] is a one-way latch.  Every event rewrites the tasks
    one by one ([evolve]) and appends what it creates; a created task is not
    flagged; no event takes a set flag away; the only event that sets the
    flag of a task is a tick at which the task has a due date, is not
    completed and its due date is not after the time of the tick; and in the
    whole life of a task the flag is set at most once. *)
Theorem reminderShown_latch `{Browser} (e : Event) (s : State) :
  todos (step e s) = omap (evolve e) (todos s) ++ created e s
  ∧ Forall (λ todo, flagged todo = false) (created e s)
  ∧ (∀ todo todo', evolve e todo = Some todo' →
       (flagged todo = true → flagged todo' = true)
       ∧ (flagged todo = false → flagged todo' = true →
            ∃ now due, e = Tick now ∧ dueDate todo = Some due
              ∧ completed todo = false ∧ date_le due now = true))
  ∧ (∀ es todo, (rises es todo ≤ 1)%nat).
Proof.
  split_and!.
  - apply todos_step.
  - eapply Forall_impl; [apply created_unflagged |]. by intros todo [? _].
  - intros todo todo' He. split.
    + by apply (evolve_flag_mono e).
    + by apply evolve_flag_rise.
  - apply rises_le_1.
Qed.

Lemma reminderShown_latch_witness :
  (∃ now due, Tick 60000 = Tick now ∧ dueDate payBillTodo = Some due
     ∧ completed payBillTodo = false ∧ date_le due now = true)
  ∧ (rises [Tick 59000; Tick 60000; Toggle (JS.lit "58000"); Tick 61000]
       payBillTodo ≤ 1)%nat.
Proof.
  destruct (reminderShown_latch (H := utcBrowser) (Tick 60000) payBill)
    as (_ & _ & Hrise & Honce).
  split; [| apply Honce].
  apply (Hrise payBillTodo (withReminderShown true payBillTodo));
    reflexivity.
Defined.

(** C2: a tick flags exactly the eligible tasks and queues the message
    "Reminder: " followed by the title for each of them, in the order of the
    list and behind what was queued before; every other task is left as it
    is and queues nothing.  Eligible means: a due date is set, the flag is
    not set, the task is not completed, and the due date is not after the
    time of the tick. *)
Theorem checkReminders_spec (now : Z) (s : State) :
  todos (checkReminders now s)
    = (λ todo, if eligible now todo then withReminderShown true todo
               else todo) <$> todos s
  ∧ notifications (checkReminders now s)
    = notifications s
        ++ ((λ todo, JS.lit "Reminder: " ++ title todo)
              <$> filter (λ todo, eligible now todo) (todos s))
  ∧ (∀ todo, eligible now todo = true ↔
       ∃ due, dueDate todo = Some due ∧ flagged todo = false
         ∧ completed todo = false ∧ date_le due now = true)
  ∧ (∀ todo, flagged (withReminderShown true todo) = true
       ∧ id (withReminderShown true todo) = id todo
       ∧ title (withReminderShown true todo) = title todo
       ∧ completed (withReminderShown true todo) = completed todo
       ∧ tags (withReminderShown true todo) = tags todo
       ∧ color (withReminderShown true todo) = color todo
       ∧ dueDate (withReminderShown true todo) = dueDate todo).
Proof.
  split_and!.
  - apply checkReminders_todos.
  - apply checkReminders_notifications.
  - apply eligible_iff.
  - done.
Qed.

Lemma checkReminders_spec_witness :
  eligible 60000 payBillTodo = true
  ∧ todos (checkReminders 60000 payBill)
    = [withReminderShown true payBillTodo]
  ∧ notifications (checkReminders 60000 payBill)
    = [JS.lit "Reminder: Pay bill"]
  ∧ todos (checkReminders 59999 payBill) = [payBillTodo]
  ∧ notifications (checkReminders 59999 payBill) = [].
Proof.
  destruct (checkReminders_spec 60000 payBill) as (Ht & Hn & Hdue & _).
  destruct (checkReminders_spec 59999 payBill) as (Ht' & Hn' & _).
  split_and!.
  - apply Hdue. exists (ValidDate 60000). by split_and!.
  - rewrite Ht. reflexivity.
  - rewrite Hn. reflexivity.
  - rewrite Ht'. reflexivity.
  - rewrite Hn'. reflexivity.
Defined.

(** ** Completed tasks *)

Lemma eligible_completed (now : Z) (todo : Todo) :
  completed todo = true → eligible now todo = false.
Proof.
  intros Hc. unfold eligible. destruct (dueDate todo); [| done].
  rewrite Hc. simpl. by rewrite andb_false_r.
Qed.

Lemma evolve_completed (e : Event) (todo : Todo) :
  completed todo = true → ¬ toggles (id todo) e →
  evolve e todo = Some todo ∨ evolve e todo = None.
Proof.
  intros Hc He. destruct e as [| | | | | |i|i|now|]; try by left.
  - left. simpl. unfold toggleOne. destruct (decide _) as [Hi|]; [| done].
    destruct He. by simpl.
  - simpl. destruct (decide _); [by left | by right].
  - left. rewrite evolve_tick. unfold flagIfDue.
    by rewrite eligible_completed.
Qed.

Lemma life_completed (es : list Event) (todo : Todo) :
  completed todo = true → Forall (λ e, ¬ toggles (id todo) e) es →
  (life es todo = Some todo ∨ life es todo = None) ∧ rises es todo = 0%nat.
Proof.
  intros Hc. induction es as [|e es IH]; intros Hes; simpl.
  { by split; [left |]. }
  apply Forall_cons in Hes as [He Hes]. specialize (IH Hes) as [IH IH'].
  destruct (evolve_completed e todo Hc He) as [-> | ->]; simpl.
  - split; [done |]. rewrite IH'. by destruct (flagged todo).
  - split; [by right | done].
Qed.

(** C3, as amended: a completed task is out of the reminders for as long as
    it is not toggled again.  Through any sequence of events without a
    toggle of its identifier the task stays exactly as it is (or is
    deleted), its flag is never set, and a tick passes over it: the tasks
    around it are treated as if it were not there and no message is queued
    for it. *)
Theorem completed_task_not_reminded (todo : Todo) (es : list Event) :
  completed todo = true →
  Forall (λ e, ¬ toggles (id todo) e) es →
  (life es todo = Some todo ∨ life es todo = None)
  ∧ rises es todo = 0%nat
  ∧ (∀ now s l1 l2, todos s = l1 ++ todo :: l2 →
       todos (checkReminders now s)
         = (flagIfDue now <$> l1) ++ todo :: (flagIfDue now <$> l2)
       ∧ notifications (checkReminders now s)
         = notifications s
             ++ (reminderMessage
                   <$> filter (λ other, eligible now other) (l1 ++ l2))).
Proof.
  intros Hc Hes.
  destruct (life_completed es todo Hc Hes) as [Hlife Hrises].
  split_and!; [done | done |].
  intros now s l1 l2 Hs.
  rewrite checkReminders_todos, checkReminders_notifications, Hs.
  rewrite fmap_app, fmap_cons, !filter_app, filter_cons.
  unfold flagIfDue at 2. by rewrite eligible_completed.
Qed.

Lemma completed_task_not_reminded_witness :
  (life [Tick 60000; Delete (JS.lit "1"); Tick 61000]
     (withCompleted true payBillTodo) = Some (withCompleted true payBillTodo)
   ∨ life [Tick 60000; Delete (JS.lit "1"); Tick 61000]
       (withCompleted true payBillTodo) = None)
  ∧ notifications
      (checkReminders 61000 (run (H := utcBrowser) completeEarlyEvents init))
    = [].
Proof.
  destruct (completed_task_not_reminded (withCompleted true payBillTodo)
              [Tick 60000; Delete (JS.lit "1"); Tick 61000])
    as (Hlife & _ & Htick).
  - reflexivity.
  - repeat constructor; simpl; tauto.
  - split; [exact Hlife |].
    destruct (Htick 61000 (run (H := utcBrowser) completeEarlyEvents init)
                [] []) as [_ ->]; reflexivity.
Defined.

(** C3, as stated, fails: the task "Pay bill" is completed by a toggle one
    second before its due time; a second toggle reopens it, and the tick
    after the due time flags it and queues its reminder. *)
Lemma reopened_task_is_reminded :
  todos (run (H := utcBrowser) completeEarlyEvents init)
    = [withCompleted true payBillTodo]
  ∧ notifications (run (H := utcBrowser) completeEarlyEvents init) = []
  ∧ todos (run (H := utcBrowser) reopenEvents init)
    = [withReminderShown true payBillTodo]
  ∧ notifications (run (H := utcBrowser) reopenEvents init)
    = [JS.lit "Reminder: Pay bill"].
Proof. by split_and!. Qed.

(** ** The toast queue *)

Lemma dismiss_due (now deadline : Z) (s : State) :
  dismissTimer s = Some deadline → deadline ≤ now →
  notifications (dismiss now s) = drop 1 (notifications s)
  ∧ dismissTimer (dismiss now s)
    = if (1 <? length (notifications s))%nat then Some (now + 5000) else None.
Proof.
  intros Ht Hle. unfold dismiss. rewrite Ht.
  destruct (deadline <=? now) eqn:Hd; [| lia]. simpl.
  split; [done |]. unfold armDismissal. rewrite length_drop.
  destruct (notifications s) as [|m [|m' q]]; simpl; try done.
Qed.

Lemma dismiss_early (now : Z) (s : State) :
  (∀ deadline, dismissTimer s = Some deadline → now < deadline) →
  dismiss now s = s.
Proof.
  intros Hearly. unfold dismiss.
  destruct (dismissTimer s) as [deadline|]; [| done].
  specialize (Hearly deadline eq_refl).
  destruct (deadline <=? now) eqn:Hd; [lia | done].
Qed.

Lemma drain_S (n : nat) (s : State) :
  drain (S n) s = fireDismissal (drain n s).
Proof. done. Qed.

Lemma drain_queue (n : nat) (s : State) (deadline : Z) :
  dismissTimer s = Some deadline →
  (n < length (notifications s))%nat →
  notifications (drain n s) = drop n (notifications s)
  ∧ dismissTimer (drain n s) = Some (deadline + 5000 * Z.of_nat n).
Proof.
  intros Ht. induction n as [|n IH]; intros Hn.
  - simpl. split; [done |]. rewrite Ht. f_equal. lia.
  - destruct IH as [IHq IHt]; [lia |].
    rewrite drain_S. unfold fireDismissal. rewrite IHt.
    destruct (dismiss_due (deadline + 5000 * Z.of_nat n)
                (deadline + 5000 * Z.of_nat n) (drain n s) IHt)
      as [Hq' Ht']; [lia |].
    rewrite Hq', Ht', IHq, drop_drop, length_drop. split.
    + f_equal. lia.
    + destruct (1 <? length (notifications s) - n)%nat eqn:Hlt.
      * f_equal. lia.
      * apply Nat.ltb_ge in Hlt. lia.
Qed.

Lemma addTodo_queue `{Browser} (now : Z) (answer : option Permission)
    (s : State) :
  notifications (addTodo now answer s) = notifications s
  ∧ dismissTimer (addTodo now answer s) = dismissTimer s.
Proof.
  unfold addTodo. destruct (negb _); [done |].
  destruct (JS.truthy (newDueDate s) && JS.truthy (newDueTime s));
    [| done].
  unfold requestNotificationPermission. destruct answer; [| done].
  by destruct (decide _).
Qed.

(** X21: in every state the page reaches, the dismissal timeout is armed
    exactly when the queue is not empty. *)
Lemma timer_armed_iff_queued `{Browser} (es : list Event) :
  dismissTimer (run es init) = None ↔ notifications (run es init) = [].
Proof.
  assert (∀ s, (dismissTimer s = None ↔ notifications s = []) →
            dismissTimer (run es s) = None ↔ notifications (run es s) = [])
    as Hinv; [| by apply Hinv].
  induction es as [|e es IH]; intros s Hs; [done |].
  simpl run. apply IH.
  destruct e as [v|v|v|v|c|now answer|i|i|now|now]; try done.
  - simpl. by destruct (addTodo_queue now answer s) as [-> ->].
  - simpl. rewrite checkReminders_timer, checkReminders_notifications.
    destruct (filter _ (todos s)) as [|todo due].
    + by rewrite app_nil_r.
    + split; [done |]. intros Hnil. by apply app_nil in Hnil as [_ Hnil].
  - simpl. destruct (dismissTimer s) as [deadline|] eqn:Ht.
    + destruct (Z.le_gt_cases deadline now) as [Hle | Hgt].
      * destruct (dismiss_due now deadline s Ht Hle) as [-> ->].
        destruct (notifications s) as [|m [|m' q]]; by simpl.
      * rewrite dismiss_early; [by rewrite Ht |].
        intros d Hd. rewrite Ht in Hd. injection Hd as <-. lia.
    + rewrite dismiss_early; [by rewrite Ht |]. intros d Hd. congruence.
Qed.




(** ** Identifiers *)

Lemma evolve_id (e : Event) (todo todo' : Todo) :
  evolve e todo = Some todo' → id todo' = id todo.
Proof.
  destruct e as [| | | | | |i|i|now|]; try (by intros [= <-]).
  - intros [= <-]. unfold toggleOne. by destruct (decide _).
  - simpl. destruct (decide _); [by intros [= <-] | done].
  - rewrite evolve_tick. intros [= <-]. apply flagIfDue_fields.
Qed.

Lemma evolve_ids_sublist (e : Event) (l : list Todo) :
  id <$> omap (evolve e) l `sublist_of` id <$> l.
Proof.
  induction l as [|todo l IH]; csimpl; [done |].
  destruct (evolve e todo) as [todo'|] eqn:He; csimpl.
  - rewrite (evolve_id e todo todo' He). by apply sublist_skip.
  - by apply sublist_cons.
Qed.

Lemma creationTimes_cons `{Browser} (e : Event) (es : list Event)
    (s : State) :
  creationTimes (e :: es) s = creationTimes [e] s ++ creationTimes es (step e s).
Proof. simpl. by rewrite app_nil_r. Qed.

Lemma created_ids `{Browser} (e : Event) (s : State) :
  id <$> created e s = JS.toString <$> creationTimes [e] s.
Proof.
  destruct e as [| | | | |now answer| | | |]; try done.
  simpl. destruct (JS.truthy (JS.trim (newTitle s))) eqn:Htitle.
  - destruct (addTodo_appends now answer s Htitle) as (todo & -> & Hid & _).
    rewrite drop_app_length. simpl. by rewrite Hid.
  - rewrite addTodo_blank by done. by rewrite drop_all.
Qed.

Lemma creationTimes_single `{Browser} (e : Event) (s : State) :
  NoDup (creationTimes [e] s).
Proof.
  destruct e as [| | | | |now answer| | | |]; simpl; try apply NoDup_nil_2.
  destruct (JS.truthy _); [apply NoDup_singleton | apply NoDup_nil_2].
Qed.

Lemma ids_step `{Browser} (e : Event) (s : State) :
  id <$> todos (step e s)
  = (id <$> omap (evolve e) (todos s)) ++ (JS.toString <$> creationTimes [e] s).
Proof. by rewrite todos_step, fmap_app, created_ids. Qed.

(** An identifier in the list after a run was in the list before it, or is
    the clock reading of a creation during the run. *)
Lemma ids_run `{Browser} (es : list Event) (s : State) (i : JS.str) :
  i ∈ id <$> todos (run es s) →
  i ∈ id <$> todos s ∨ i ∈ JS.toString <$> creationTimes es s.
Proof.
  revert s. induction es as [|e es IH]; intros s; simpl run; [by left |].
  intros [Hi | Hi]%IH.
  - rewrite ids_step in Hi. apply elem_of_app in Hi as [Hi | Hi].
    + left. by eapply elem_of_sublist; [| apply evolve_ids_sublist].
    + right. rewrite creationTimes_cons, fmap_app, elem_of_app. by left.
  - right. rewrite creationTimes_cons, fmap_app, elem_of_app. by right.
Qed.

Lemma ids_NoDup_run `{Browser} (es : list Event) (s : State) :
  NoDup (id <$> todos s) →
  NoDup (creationTimes es s) →
  (∀ t, t ∈ creationTimes es s → JS.toString t ∉ id <$> todos s) →
  NoDup (id <$> todos (run es s)).
Proof.
  revert s. induction es as [|e es IH]; intros s Hs Hes Hfresh; [done |].
  simpl run. rewrite creationTimes_cons in Hes, Hfresh.
  apply NoDup_app in Hes as (Hhd & Hsep & Htl).
  apply IH; [| done |].
  - rewrite ids_step. apply NoDup_app. split_and!.
    + by eapply sublist_NoDup; [| apply evolve_ids_sublist].
    + intros i Hi (t & -> & Ht)%list_elem_of_fmap.
      eapply (Hfresh t); [apply elem_of_app; by left |].
      by eapply elem_of_sublist; [| apply evolve_ids_sublist].
    + apply (NoDup_fmap_2 _). apply creationTimes_single.
  - intros t Ht. rewrite ids_step. intros [Hi | Hi]%elem_of_app.
    + eapply (Hfresh t); [apply elem_of_app; by right |].
      by eapply elem_of_sublist; [| apply evolve_ids_sublist].
    + apply list_elem_of_fmap in Hi as (t' & Heq & Ht').
      apply toString_inj in Heq as <-. by apply (Hsep t).
Qed.

(** As far as [Date.now().toString()] goes: identifiers are the decimal
    clock readings of the creations, and they are pairwise distinct where
    the readings are. *)
Lemma ids_unique `{Browser} (es : list Event) :
  NoDup (creationTimes es init) →
  NoDup (id <$> todos (run es init))
  ∧ (∀ j k todo1 todo2,
       todos (run es init) !! j = Some todo1 →
       todos (run es init) !! k = Some todo2 →
       j ≠ k → id todo1 ≠ id todo2)
  ∧ (∀ todo, todo ∈ todos (run es init) →
       ∃ t, t ∈ creationTimes es init ∧ id todo = JS.toString t).
Proof.
  intros Hes.
  assert (NoDup (id <$> todos (run es init))) as Hnodup.
  { apply ids_NoDup_run; [apply NoDup_nil_2 | done |].
    intros t _. apply not_elem_of_nil. }
  split_and!; [done | |].
  - intros j k todo1 todo2 Hj Hk Hjk Hid. apply Hjk.
    eapply (NoDup_lookup _ j k (id todo1) Hnodup).
    + by rewrite list_lookup_fmap, Hj.
    + by rewrite list_lookup_fmap, Hk, Hid.
  - intros todo Htodo.
    destruct (ids_run es init (id todo)) as [Hin | Hin].
    + by apply list_elem_of_fmap_2.
    + by apply elem_of_nil in Hin.
    + apply list_elem_of_fmap in Hin as (t & Heq & Ht). by exists t.
Qed.

(** C5: the code breaks the claim.  [addTodo] takes [Date.now().toString()]
    as identifier and never compares it with the identifiers in the list:
    two tasks added while the clock reads the same millisecond get the same
    identifier and are both in the list.  The identifier is all that
    [toggleTodo] and [deleteTodo] know of a task (and the React key of its
    card), so one click on either task then toggles both, or deletes
    both. *)
Theorem same_millisecond_same_id :
  id <$> todos (run (H := utcBrowser) sameMillisecondEvents init)
    = [JS.lit "1000"; JS.lit "1000"]
  ∧ title <$> todos (run (H := utcBrowser) sameMillisecondEvents init)
    = [JS.lit "a"; JS.lit "b"]
  ∧ ¬ NoDup (id <$> todos (run (H := utcBrowser) sameMillisecondEvents init))
  ∧ completed
      <$> todos (run (H := utcBrowser)
                   (sameMillisecondEvents ++ [Toggle (JS.lit "1000")]) init)
    = [true; true]
  ∧ todos (run (H := utcBrowser)
             (sameMillisecondEvents ++ [Delete (JS.lit "1000")]) init)
    = [].
Proof.
  split_and!; [done | done | | done | done].
  change (¬ NoDup [JS.lit "1000"; JS.lit "1000"]).
  intros [Hin _]%NoDup_cons. apply Hin. by left.
Qed.

(** ** Adding a task *)

Lemma filter_truthy (l : list JS.str) :
  filter (λ tag, JS.truthy tag) l = filter (λ tag, tag ≠ []) l.
Proof.
  apply list_filter_iff. intros tag. by destruct tag.
Qed.

(** C6: the tags of an added task are the pieces of the tags input between
    its commas, each one trimmed, without the ones that are empty after
    trimming, in the order of the input and with repetitions kept; the input
    "a, ,b ," gives "a" and "b". *)
Theorem addTodo_tags `{Browser} (now : Z) (answer : option Permission)
    (s : State) :
  JS.truthy (JS.trim (newTitle s)) = true →
  ∃ todo pieces,
    todos (addTodo now answer s) = todos s ++ [todo]
    ∧ JS.join JS.comma pieces = newTags s
    ∧ Forall (λ piece, JS.comma ∉ piece) pieces
    ∧ tags todo = filter (λ tag, tag ≠ []) (JS.trim <$> pieces)
    ∧ (∀ v w, newTags s = v ++ JS.comma :: w →
         tags todo = parseTags v ++ parseTags w)
    ∧ Forall (λ tag, tag ≠ [] ∧ JS.trim tag = tag ∧ JS.comma ∉ tag)
        (tags todo)
    ∧ (newTags s = JS.lit "a, ,b ," → tags todo = [JS.lit "a"; JS.lit "b"]).
Proof.
  intros Htitle.
  destruct (addTodo_appends now answer s Htitle)
    as (todo & Htodos & _ & _ & _ & Htags & _).
  exists todo, (JS.split JS.comma (newTags s)). split_and!.
  - done.
  - apply join_split.
  - apply split_no_sep.
  - rewrite Htags. apply filter_truthy.
  - intros v w Hvw. rewrite Htags, Hvw. apply parseTags_app.
  - rewrite Htags. apply parseTags_wf.
  - intros Hraw. by rewrite Htags, Hraw.
Qed.

Lemma addTodo_tags_witness :
  ∃ todo, todos (addTodo (H := utcBrowser) 1000 None tagsForm) = [todo]
    ∧ tags todo = [JS.lit "a"; JS.lit "b"].
Proof.
  destruct (addTodo_tags (H := utcBrowser) 1000 None tagsForm)
    as (todo & pieces & Htodos & _ & _ & _ & _ & _ & Htags).
  - reflexivity.
  - exists todo. split; [exact Htodos | by apply Htags].
Defined.

(** C7: with a title that is empty or consists of white space only, which
    are the titles that are empty after trimming, [addTodo] changes nothing:
    the task list, the input fields, the permission and the queue are what
    they were. *)
Theorem addTodo_blank_title `{Browser} (now : Z) (answer : option Permission)
    (s : State) :
  Forall (λ c, JS.isWhite c) (newTitle s) →
  JS.trim (newTitle s) = []
  ∧ addTodo now answer s = s
  ∧ step (Add now answer) s = s
  ∧ length (todos (addTodo now answer s)) = length (todos s).
Proof.
  intros Hblank.
  assert (addTodo now answer s = s) as Hnoop.
  { apply addTodo_blank. by apply truthy_trim_iff. }
  split_and!; [by apply trim_nil_iff | done | done | by rewrite Hnoop].
Qed.

Lemma addTodo_blank_title_witness :
  addTodo (H := utcBrowser) 59000 (Some PermDenied) blankTitleForm
  = blankTitleForm.
Proof.
  apply (addTodo_blank_title (H := utcBrowser) 59000 (Some PermDenied)
           blankTitleForm).
  change (Forall (λ c, JS.isWhite c) [32; 9; 12288]%N).
  repeat constructor.
Defined.

(** ** Toggling and deleting *)

Lemma toggleTodo_todos (i : JS.str) (s : State) :
  todos (toggleTodo i s) = toggleOne i <$> todos s.
Proof. done. Qed.

Lemma deleteTodo_todos (i : JS.str) (s : State) :
  todos (deleteTodo i s) = filter (λ todo, id todo ≠ i) (todos s).
Proof. done. Qed.

Lemma setTodos_same (f : list Todo → list Todo) (s : State) :
  f (todos s) = todos s → setTodos f s = s.
Proof. intros Hf. unfold setTodos. rewrite Hf. by destruct s. Qed.

Lemma toggleTodo_absent (i : JS.str) (s : State) :
  (∀ todo, todo ∈ todos s → id todo ≠ i) → toggleTodo i s = s.
Proof.
  intros Habsent. apply setTodos_same.
  rewrite <- (list_fmap_id (todos s)) at 2.
  apply list_fmap_ext. intros k todo Hk. unfold toggleOne.
  destruct (decide _) as [Hi|]; [| done].
  by destruct (Habsent todo (list_elem_of_lookup_2 _ _ _ Hk)).
Qed.

Lemma deleteTodo_absent (i : JS.str) (s : State) :
  (∀ todo, todo ∈ todos s → id todo ≠ i) → deleteTodo i s = s.
Proof.
  intros Habsent. apply setTodos_same.
  induction (todos s) as [|todo l IH]; [done |].
  rewrite filter_cons. destruct (decide _) as [| Hi].
  - f_equal. apply IH. intros todo' Hin. apply Habsent. by right.
  - destruct Hi. apply Habsent. by left.
Qed.

(** C8: [toggleTodo i] negates [completed] in the tasks whose identifier is
    [i], at their positions, and changes nothing when no task has that
    identifier. *)
Theorem toggleTodo_flips (i : JS.str) (s : State) :
  (∀ k todo, todos s !! k = Some todo → id todo = i →
     ∃ todo', todos (toggleTodo i s) !! k = Some todo'
       ∧ completed todo' = negb (completed todo)
       ∧ todo' = withCompleted (negb (completed todo)) todo)
  ∧ (∀ k todo, todos s !! k = Some todo → id todo ≠ i →
       todos (toggleTodo i s) !! k = Some todo)
  ∧ length (todos (toggleTodo i s)) = length (todos s)
  ∧ ((∀ todo, todo ∈ todos s → id todo ≠ i) → toggleTodo i s = s).
Proof.
  split_and!.
  - intros k todo Hk Hi. eexists. split_and!; [| | done].
    + rewrite toggleTodo_todos, list_lookup_fmap, Hk. simpl.
      unfold toggleOne. by rewrite decide_True.
    + done.
  - intros k todo Hk Hi.
    rewrite toggleTodo_todos, list_lookup_fmap, Hk. simpl.
    unfold toggleOne. by rewrite decide_False.
  - by rewrite toggleTodo_todos, length_fmap.
  - apply toggleTodo_absent.
Qed.

Lemma toggleTodo_flips_witness :
  (∃ todo', todos (toggleTodo (JS.lit "58000") payBill) !! 0%nat = Some todo'
     ∧ completed todo' = negb (completed payBillTodo)
     ∧ todo' = withCompleted (negb (completed payBillTodo)) payBillTodo)
  ∧ toggleTodo (JS.lit "58001") payBill = payBill.
Proof.
  destruct (toggleTodo_flips (JS.lit "58000") payBill) as (Hflip & _).
  destruct (toggleTodo_flips (JS.lit "58001") payBill) as (_ & _ & _ & Hno).
  split.
  - apply Hflip; reflexivity.
  - apply Hno. intros todo Hin.
    change (todo ∈ [payBillTodo]) in Hin.
    apply list_elem_of_singleton in Hin as ->. discriminate.
Defined.

Lemma life_deleted (i : JS.str) (es : list Event) (todo : Todo) :
  id todo = i → life (Delete i :: es) todo = None.
Proof. intros Hi. simpl. by rewrite decide_False by (by intros []). Qed.

Lemma run_ids_absent `{Browser} (i : JS.str) (es : list Event) (s : State) :
  Forall (λ todo, id todo ≠ i) (todos s) →
  i ∉ JS.toString <$> creationTimes es s →
  Forall (λ todo, id todo ≠ i) (todos (run es s)).
Proof.
  intros Hs Hes. apply Forall_forall. intros todo Hin Hi.
  destruct (ids_run es s i) as [Hold | Hnew].
  - rewrite <- Hi. by apply list_elem_of_fmap_2.
  - apply list_elem_of_fmap in Hold as (todo' & Hi' & Hin').
    by apply (proj1 (Forall_forall _ _) Hs todo').
  - done.
Qed.

(** C9: [deleteTodo i] removes the tasks whose identifier is [i] and keeps
    the others, and changes nothing when no task has that identifier.  The
    life of a removed task ends there: after any further events the list,
    which is what a tick evaluates and what the page shows, consists of the
    tasks that were kept, as they have evolved, and of the tasks created
    since; in particular no task has the identifier [i] unless a task is
    created later at the clock reading that prints as [i]. *)
Theorem deleteTodo_removes `{Browser} (i : JS.str) (s : State) :
  (∀ todo, todo ∈ todos (deleteTodo i s) ↔ todo ∈ todos s ∧ id todo ≠ i)
  ∧ ((∀ todo, todo ∈ todos s → id todo ≠ i) → deleteTodo i s = s)
  ∧ (∀ es todo, id todo = i → life (Delete i :: es) todo = None)
  ∧ (∀ es, todos (run es (deleteTodo i s))
       = omap (life es) (filter (λ todo, id todo ≠ i) (todos s))
           ++ born es (deleteTodo i s))
  ∧ (∀ es now, todos (checkReminders now (run es (deleteTodo i s)))
       = flagIfDue now <$> todos (run es (deleteTodo i s)))
  ∧ (∀ es, i ∉ JS.toString <$> creationTimes es (deleteTodo i s) →
       Forall (λ todo, id todo ≠ i) (todos (run es (deleteTodo i s)))).
Proof.
  split_and!.
  - intros todo. rewrite deleteTodo_todos, list_elem_of_filter. tauto.
  - apply deleteTodo_absent.
  - intros es todo. apply life_deleted.
  - intros es. by rewrite todos_run, deleteTodo_todos.
  - intros es now. apply checkReminders_todos.
  - intros es. apply run_ids_absent. rewrite deleteTodo_todos.
    apply Forall_forall. by intros todo [Hi _]%list_elem_of_filter.
Qed.

Lemma deleteTodo_removes_witness :
  deleteTodo (JS.lit "58001") payBill = payBill
  ∧ todos (deleteTodo (JS.lit "58000") payBill) = []
  ∧ Forall (λ todo, id todo ≠ JS.lit "58000")
      (todos (run (H := utcBrowser)
                [Tick 60000; ChangeTitle (JS.lit "Call bank"); Add 61000 None]
                (deleteTodo (JS.lit "58000") payBill))).
Proof.
  destruct (deleteTodo_removes (H := utcBrowser) (JS.lit "58001") payBill)
    as (_ & Hno & _).
  destruct (deleteTodo_removes (H := utcBrowser) (JS.lit "58000") payBill)
    as (_ & _ & _ & _ & _ & Hgone).
  split_and!.
  - apply Hno. intros todo Hin. change (todo ∈ [payBillTodo]) in Hin.
    apply list_elem_of_singleton in Hin as ->. discriminate.
  - reflexivity.
  - apply Hgone. change (JS.lit "58000" ∉ [JS.lit "61000"]).
    intros Hin%list_elem_of_singleton. discriminate.
Defined.

Lemma sublist_filter_max {A : Type} (P : A → Prop) `{!∀ a, Decision (P a)}
    (l k : list A) :
  l `sublist_of` k → Forall P l → l `sublist_of` filter P k.
Proof.
  induction 1 as [|a l k Hlk IH|a l k Hlk IH]; intros Hl.
  - done.
  - apply Forall_cons in Hl as [Ha Hl].
    rewrite filter_cons_True by done. apply sublist_skip. by apply IH.
  - rewrite filter_cons. destruct (decide (P a)); [apply sublist_cons |];
      by apply IH.
Qed.

(** C10: [toggleTodo i] keeps every task at its position, leaves the tasks
    with another identifier as they are, and changes no field but
    [completed] in the tasks with the identifier [i]; [deleteTodo i] keeps
    the tasks with another identifier, unchanged and in their order: what is
    left is the largest sublist of the old list without the identifier
    [i].  Neither touches the input fields, the queue or the permission. *)
Theorem toggle_delete_frame (i : JS.str) (s : State) :
  Forall2 (λ todo todo',
      id todo' = id todo ∧ title todo' = title todo
      ∧ tags todo' = tags todo ∧ color todo' = color todo
      ∧ dueDate todo' = dueDate todo
      ∧ reminderShown todo' = reminderShown todo
      ∧ (id todo ≠ i → todo' = todo))
    (todos s) (todos (toggleTodo i s))
  ∧ todos (deleteTodo i s) `sublist_of` todos s
  ∧ Forall (λ todo, id todo ≠ i) (todos (deleteTodo i s))
  ∧ (∀ l, l `sublist_of` todos s → Forall (λ todo, id todo ≠ i) l →
       l `sublist_of` todos (deleteTodo i s))
  ∧ (∀ op, op = toggleTodo i ∨ op = deleteTodo i →
       newTitle (op s) = newTitle s ∧ newTags (op s) = newTags s
       ∧ newColor (op s) = newColor s ∧ newDueDate (op s) = newDueDate s
       ∧ newDueTime (op s) = newDueTime s
       ∧ notifications (op s) = notifications s
       ∧ notificationPermission (op s) = notificationPermission s
       ∧ dismissTimer (op s) = dismissTimer s
       ∧ dispatched (op s) = dispatched s).
Proof.
  split_and!.
  - rewrite toggleTodo_todos. apply Forall2_fmap_r, Forall_Forall2_diag.
    apply Forall_forall. intros todo _. unfold compose, toggleOne.
    case_decide; by split_and!.
  - rewrite deleteTodo_todos. apply sublist_filter.
  - rewrite deleteTodo_todos. apply Forall_forall.
    by intros todo [Hi _]%list_elem_of_filter.
  - intros l Hl Hi. rewrite deleteTodo_todos. by apply sublist_filter_max.
  - by intros op [-> | ->].
Qed.

Lemma toggle_delete_frame_witness :
  [withReminderShown true payBillTodo]
    `sublist_of` todos (deleteTodo (JS.lit "58500")
                          (run (H := utcBrowser) twoDueEvents init))
  ∧ newTitle (toggleTodo (JS.lit "58500") blankTitleForm)
    = [32; 9; 12288]%N.
Proof.
  destruct (toggle_delete_frame (JS.lit "58500")
              (run (H := utcBrowser) twoDueEvents init))
    as (_ & _ & _ & Hmax & _).
  destruct (toggle_delete_frame (JS.lit "58500") blankTitleForm)
    as (_ & _ & _ & _ & Hrest).
  split.
  - apply Hmax.
    + vm_compute. apply sublist_skip, sublist_nil_l.
    + repeat constructor. vm_compute. discriminate.
  - destruct (Hrest (toggleTodo (JS.lit "58500"))) as (Htitle & _).
    + by left.
    + rewrite Htitle. reflexivity.
Defined.

(** ** The notification permission *)

Lemma checkReminders_frame (now : Z) (s : State) :
  newTitle (checkReminders now s) = newTitle s
  ∧ newTags (checkReminders now s) = newTags s
  ∧ newColor (checkReminders now s) = newColor s
  ∧ newDueDate (checkReminders now s) = newDueDate s
  ∧ newDueTime (checkReminders now s) = newDueTime s
  ∧ notificationPermission (checkReminders now s) = notificationPermission s.
Proof. unfold checkReminders. by rewrite mapM_remind. Qed.

Lemma dismiss_frame (now : Z) (s : State) :
  newTitle (dismiss now s) = newTitle s
  ∧ newTags (dismiss now s) = newTags s
  ∧ newColor (dismiss now s) = newColor s
  ∧ newDueDate (dismiss now s) = newDueDate s
  ∧ newDueTime (dismiss now s) = newDueTime s
  ∧ notificationPermission (dismiss now s) = notificationPermission s
  ∧ dispatched (dismiss now s) = dispatched s.
Proof.
  unfold dismiss. destruct (dismissTimer s) as [deadline|]; [| done].
  by destruct (deadline <=? now).
Qed.

(** Everything a successful [addTodo] does. *)
Lemma addTodo_success `{Browser} (now : Z) (answer : option Permission)
    (s : State) :
  JS.truthy (JS.trim (newTitle s)) = true →
  ∃ todo,
    todos (addTodo now answer s) = todos s ++ [todo]
    ∧ todo = mkTodo (JS.toString now) (JS.trim (newTitle s)) false
               (parseTags (newTags s)) (newColor s)
               (if JS.truthy (newDueDate s) && JS.truthy (newDueTime s)
                then Some (Date_parse
                             (newDueDate s ++ JS.lit "T" ++ newDueTime s))
                else None)
               (Some false)
    ∧ newTitle (addTodo now answer s) = []
    ∧ newTags (addTodo now answer s) = []
    ∧ newColor (addTodo now answer s) = JS.lit "gray"
    ∧ newDueDate (addTodo now answer s) = []
    ∧ newDueTime (addTodo now answer s) = []
    ∧ notifications (addTodo now answer s) = notifications s
    ∧ dismissTimer (addTodo now answer s) = dismissTimer s
    ∧ dispatched (addTodo now answer s) = dispatched s
    ∧ notificationPermission (addTodo now answer s)
      = match prompts (Add now answer) s with
        | Some permission => permission
        | None => notificationPermission s
        end.
Proof.
  intros Htitle. unfold addTodo, prompts. rewrite Htitle.
  cbn [negb andb].
  destruct (JS.truthy (newDueDate s) && JS.truthy (newDueTime s)) eqn:Hdue;
    cbn [andb].
  - unfold requestNotificationPermission.
    destruct answer as [permission|]; [| eexists; by split_and!].
    destruct (decide (notificationPermission s = PermDefault)) as [Hp|Hp].
    + rewrite bool_decide_eq_true_2 by done. eexists. by split_and!.
    + rewrite bool_decide_eq_false_2 by done. eexists. by split_and!.
  - eexists. split_and!; try done. by destruct answer.
Qed.

Lemma step_permission `{Browser} (e : Event) (s : State) :
  notificationPermission (step e s)
  = match prompts e s with
    | Some permission => permission
    | None => notificationPermission s
    end.
Proof.
  destruct e as [v|v|v|v|c|now answer|i|i|now|now]; try done.
  - simpl step. destruct (JS.truthy (JS.trim (newTitle s))) eqn:Htitle.
    + by destruct (addTodo_success now answer s Htitle)
        as (todo & _ & _ & _ & _ & _ & _ & _ & _ & _ & _ & ->).
    + rewrite addTodo_blank by done. unfold prompts. rewrite Htitle.
      by destruct answer.
  - apply checkReminders_frame.
  - apply dismiss_frame.
Qed.

Lemma prompts_default (e : Event) (s : State) (permission : Permission) :
  prompts e s = Some permission → notificationPermission s = PermDefault.
Proof.
  destruct e as [| | | | |now [answer|]| | | |]; try done. simpl.
  destruct (bool_decide (notificationPermission s = PermDefault)) eqn:Hp.
  - by apply bool_decide_eq_true in Hp.
  - by rewrite andb_false_r.
Qed.

Lemma step_permission_decided `{Browser} (e : Event) (s : State) :
  notificationPermission s ≠ PermDefault →
  notificationPermission (step e s) = notificationPermission s.
Proof.
  intros Hp. rewrite step_permission.
  destruct (prompts e s) as [permission|] eqn:He; [| done].
  by apply prompts_default in He.
Qed.





(** ** What every reachable state looks like *)

Lemma palette_color_value (c : ColorOption) :
  color_value c ∈ ce_value <$> COLOR_OPTIONS.
Proof.
  apply list_elem_of_In. destruct c; simpl; tauto.
Qed.

Lemma palette_gray : JS.lit "gray" ∈ ce_value <$> COLOR_OPTIONS.
Proof. apply (palette_color_value ColorDefault). Qed.

Lemma wfTodo_withCompleted (b : bool) (todo : Todo) :
  wfTodo todo → wfTodo (withCompleted b todo).
Proof. done. Qed.

Lemma date_le_valid (due : Date) (now : Z) :
  date_le due now = true → ∃ ms, due = ValidDate ms.
Proof. destruct due as [ms|]; [by exists ms | done]. Qed.

Lemma wfTodo_flagIfDue (now : Z) (todo : Todo) :
  wfTodo todo → wfTodo (flagIfDue now todo).
Proof.
  intros (Ht & Htrim & Htags & Hcolor & Hshown & Hdue). unfold flagIfDue.
  destruct (eligible now todo) eqn:He; [| done].
  apply eligible_iff in He as (due & Hd & _ & _ & Hle).
  split_and!; try done.
  - by exists true.
  - intros _. simpl. rewrite Hd.
    destruct (date_le_valid due now Hle) as (ms & ->). by exists ms.
Qed.

Lemma wfTodo_evolve (e : Event) (todo todo' : Todo) :
  evolve e todo = Some todo' → wfTodo todo → wfTodo todo'.
Proof.
  destruct e as [| | | | | |i|i|now|]; try (by intros [= <-]).
  - intros [= <-] Hwf. unfold toggleOne. case_decide; [| done].
    by apply wfTodo_withCompleted.
  - simpl. case_decide; [by intros [= <-] | done].
  - rewrite evolve_tick. intros [= <-]. apply wfTodo_flagIfDue.
Qed.

Lemma Forall_omap_evolve (P : Todo → Prop) (e : Event) (l : list Todo) :
  (∀ todo todo', evolve e todo = Some todo' → P todo → P todo') →
  Forall P l → Forall P (omap (evolve e) l).
Proof.
  intros Hstep. induction 1 as [|todo l Htodo Hl IH]; csimpl; [done |].
  destruct (evolve e todo) as [todo'|] eqn:He; [| done].
  constructor; [by eapply Hstep | done].
Qed.

Lemma wfTodo_created `{Browser} (e : Event) (s : State) :
  newColor s ∈ ce_value <$> COLOR_OPTIONS → Forall wfTodo (created e s).
Proof.
  intros Hcolor. destruct e as [| | | | |now answer| | | |];
    try by constructor.
  unfold created. destruct (JS.truthy (JS.trim (newTitle s))) eqn:Htitle.
  - destruct (addTodo_success now answer s Htitle) as (todo & -> & -> & _).
    rewrite drop_app_length. apply Forall_singleton.
    split_and!; simpl; [| apply trim_idemp | apply parseTags_wf | done
                        | by exists false | done].
    by destruct (JS.trim (newTitle s)).
  - rewrite addTodo_blank by done. rewrite drop_all. constructor.
Qed.

Lemma step_newColor `{Browser} (e : Event) (s : State) :
  newColor s ∈ ce_value <$> COLOR_OPTIONS →
  newColor (step e s) ∈ ce_value <$> COLOR_OPTIONS.
Proof.
  intros Hcolor. destruct e as [v|v|v|v|c|now answer|i|i|now|now]; try done.
  - apply palette_color_value.
  - simpl. destruct (JS.truthy (JS.trim (newTitle s))) eqn:Htitle.
    + destruct (addTodo_success now answer s Htitle)
        as (todo & _ & _ & _ & _ & -> & _). apply palette_gray.
    + by rewrite addTodo_blank.
  - simpl. by destruct (checkReminders_frame now s) as (_ & _ & -> & _).
  - simpl. by destruct (dismiss_frame now s) as (_ & _ & -> & _).
Qed.

Lemma step_dispatched `{Browser} (e : Event) (s : State) :
  dispatched (step e s)
  = dispatched s ++
      match e with
      | Tick now =>
          if decide (notificationPermission s = PermGranted)
          then systemReminder <$> filter (λ todo, eligible now todo) (todos s)
          else []
      | _ => []
      end.
Proof.
  destruct e as [v|v|v|v|c|now answer|i|i|now|now];
    rewrite ?app_nil_r; try done.
  - simpl. destruct (JS.truthy (JS.trim (newTitle s))) eqn:Htitle.
    + by destruct (addTodo_success now answer s Htitle)
        as (todo & _ & _ & _ & _ & _ & _ & _ & _ & _ & -> & _).
    + by rewrite addTodo_blank.
  - apply checkReminders_dispatched.
  - apply dismiss_frame.
Qed.

Lemma step_notifications `{Browser} (e : Event) (s : State) :
  notifications (step e s)
  = match e with
    | Tick now =>
        notifications s
          ++ (reminderMessage
                <$> filter (λ todo, eligible now todo) (todos s))
    | Dismiss now => notifications (dismiss now s)
    | _ => notifications s
    end.
Proof.
  destruct e as [v|v|v|v|c|now answer|i|i|now|now]; try done.
  - simpl. by destruct (addTodo_queue now answer s) as [-> _].
  - apply checkReminders_notifications.
Qed.

Lemma dismiss_notifications (now : Z) (s : State) :
  notifications (dismiss now s) = notifications s
  ∨ notifications (dismiss now s) = drop 1 (notifications s).
Proof.
  unfold dismiss. destruct (dismissTimer s) as [deadline|]; [| by left].
  destruct (deadline <=? now); [by right | by left].
Qed.

Lemma wfState_step `{Browser} (e : Event) (s : State) :
  wfState s → wfState (step e s).
Proof.
  intros (Htodos & Hcolor & Hqueue & Hlog). split_and!.
  - rewrite todos_step. apply Forall_app. split.
    + apply Forall_omap_evolve; [apply wfTodo_evolve | done].
    + by apply wfTodo_created.
  - by apply step_newColor.
  - rewrite step_notifications.
    destruct e as [v|v|v|v|c|now answer|i|i|now|now]; try done.
    + apply Forall_app. split; [done |]. apply Forall_fmap, Forall_forall.
      intros todo [_ Hin]%list_elem_of_filter.
      destruct (proj1 (Forall_forall _ _) Htodos todo Hin)
        as (Ht & Htrim & _).
      by exists (title todo).
    + destruct (dismiss_notifications now s) as [-> | ->]; [done |].
      by apply Forall_drop.
  - intros Hp. rewrite step_dispatched.
    assert (notificationPermission s ≠ PermGranted) as Hp'.
    { intros Hg. apply Hp. rewrite step_permission_decided; [done |].
      by rewrite Hg. }
    rewrite (Hlog Hp').
    destruct e as [v|v|v|v|c|now answer|i|i|now|now]; try done.
    by rewrite decide_False.
Qed.

Lemma wfState_init : wfState init.
Proof.
  split_and!; [constructor | apply palette_gray | constructor | done].
Qed.

Lemma wfState_run `{Browser} (es : list Event) (s : State) :
  wfState s → wfState (run es s).
Proof.
  revert s. induction es as [|e es IH]; intros s Hs; [done |].
  simpl run. by apply IH, wfState_step.
Qed.



(** X4: every task the page ever holds has a title that is not empty and
    has no white space at either end, tags that are non-empty, trimmed and
    free of commas, and a [reminderShown] that is [false] or [true], never
    missing. *)
Theorem tasks_well_formed `{Browser} (es : list Event) (todo : Todo) :
  todo ∈ todos (run es init) →
  title todo ≠ []
  ∧ JS.trim (title todo) = title todo
  ∧ Forall (λ tag, tag ≠ [] ∧ JS.trim tag = tag ∧ JS.comma ∉ tag) (tags todo)
  ∧ (∃ b, reminderShown todo = Some b).
Proof.
  intros Hin. destruct (wfState_run es init wfState_init) as (Htodos & _).
  by destruct (proj1 (Forall_forall _ _) Htodos todo Hin)
    as (? & ? & ? & _ & ? & _).
Qed.

Lemma tasks_well_formed_witness :
  title (withReminderShown true payBillTodo) ≠ []
  ∧ JS.trim (title (withReminderShown true payBillTodo))
    = title (withReminderShown true payBillTodo).
Proof.
  destruct (tasks_well_formed (H := utcBrowser) twoDueEvents
              (withReminderShown true payBillTodo))
    as (Ht & Htrim & _).
  - vm_compute. apply list_elem_of_here.
  - by split.
Defined.

(** X5: a task whose reminder flag is set has a valid due date: the flag is
    never set on a task without a due date or with an invalid one. *)
Theorem flagged_has_due_date `{Browser} (es : list Event) (todo : Todo) :
  todo ∈ todos (run es init) → flagged todo = true →
  ∃ ms, dueDate todo = Some (ValidDate ms).
Proof.
  intros Hin. destruct (wfState_run es init wfState_init) as (Htodos & _).
  by destruct (proj1 (Forall_forall _ _) Htodos todo Hin)
    as (_ & _ & _ & _ & _ & ?).
Qed.

Lemma flagged_has_due_date_witness :
  ∃ ms, dueDate (withReminderShown true payBillTodo) = Some (ValidDate ms).
Proof.
  apply (flagged_has_due_date (H := utcBrowser) twoDueEvents).
  - vm_compute. apply list_elem_of_here.
  - reflexivity.
Defined.

Lemma colorClass_palette (todo : Todo) :
  color todo ∈ ce_value <$> COLOR_OPTIONS →
  ∃ c, c ∈ COLOR_OPTIONS ∧ ce_value c = color todo
    ∧ colorClass todo = ce_class c
    ∧ colorClass todo = JS.lit "border-l-" ++ color todo ++ JS.lit "-400".
Proof.
  intros Hin. apply list_elem_of_fmap in Hin as (c & Hc & Hin).
  unfold colorClass. rewrite Hc.
  apply list_elem_of_In in Hin. simpl in Hin.
  exists c.
  destruct Hin as [<- | [<- | [<- | [<- | [<- | [<- | []]]]]]];
    (split_and!;
     [apply list_elem_of_In; simpl; tauto | reflexivity
     | vm_compute; reflexivity | vm_compute; reflexivity]).
Qed.

(** X6: the colour of every task the page holds, and the colour selected in
    the form, is one of the six values of [COLOR_OPTIONS]; so the lookup of
    the border class of a task card always finds its entry, never falls back
    to the default, and gives "border-l-" + colour + "-400". *)
Theorem colors_in_palette `{Browser} (es : list Event) :
  newColor (run es init) ∈ ce_value <$> COLOR_OPTIONS
  ∧ ∀ todo, todo ∈ todos (run es init) →
      ∃ c, c ∈ COLOR_OPTIONS ∧ ce_value c = color todo
        ∧ colorClass todo = ce_class c
        ∧ colorClass todo = JS.lit "border-l-" ++ color todo ++ JS.lit "-400".
Proof.
  destruct (wfState_run es init wfState_init) as (Htodos & Hcolor & _).
  split; [done |]. intros todo Hin. apply colorClass_palette.
  by destruct (proj1 (Forall_forall _ _) Htodos todo Hin)
    as (_ & _ & _ & ? & _).
Qed.

Lemma colors_in_palette_witness :
  ∃ c, c ∈ COLOR_OPTIONS
    ∧ colorClass (withReminderShown true payBillTodo) = ce_class c.
Proof.
  destruct (colors_in_palette (H := utcBrowser) twoDueEvents) as [_ Hcls].
  destruct (Hcls (withReminderShown true payBillTodo))
    as (c & Hc & _ & Hclass & _).
  - vm_compute. apply list_elem_of_here.
  - by exists c.
Defined.

(** X7: every entry of the toast queue is "Reminder: " followed by a
    non-empty, trimmed title: nothing else is ever queued. *)
Theorem queue_holds_reminders `{Browser} (es : list Event) (message : JS.str) :
  message ∈ notifications (run es init) →
  ∃ t, message = JS.lit "Reminder: " ++ t ∧ t ≠ [] ∧ JS.trim t = t.
Proof.
  intros Hin.
  destruct (wfState_run es init wfState_init) as (_ & _ & Hqueue & _).
  by apply (proj1 (Forall_forall _ _) Hqueue message).
Qed.

Lemma queue_holds_reminders_witness :
  ∃ t, JS.lit "Reminder: Pay bill" = JS.lit "Reminder: " ++ t ∧ t ≠ []
    ∧ JS.trim t = t.
Proof.
  apply (queue_holds_reminders (H := utcBrowser) twoDueEvents).
  vm_compute. apply list_elem_of_here.
Defined.

(** ** More on the reminder monitor *)

(** X8: with the permission granted, a tick constructs one platform
    notification for every toast it queues, in the same order, titled
    "Todo Reminder" with the task title as body, so that each toast is
    "Reminder: " followed by the body of its platform notification; without
    the permission a tick constructs none. *)
Theorem tick_dispatches_per_reminder (now : Z) (s : State) :
  (notificationPermission s = PermGranted →
     ∃ fresh,
       dispatched (checkReminders now s) = dispatched s ++ fresh
       ∧ notifications (checkReminders now s)
         = notifications s
             ++ ((λ n, JS.lit "Reminder: " ++ sn_body n) <$> fresh)
       ∧ Forall (λ n, sn_title n = JS.lit "Todo Reminder"
                      ∧ sn_icon n = JS.lit "/favicon.ico") fresh)
  ∧ (notificationPermission s ≠ PermGranted →
       dispatched (checkReminders now s) = dispatched s).
Proof.
  rewrite checkReminders_dispatched, checkReminders_notifications. split.
  - intros Hp. rewrite decide_True by done.
    eexists. split_and!; [done | |].
    + by rewrite <- list_fmap_compose.
    + by apply Forall_fmap, Forall_true.
  - intros Hp. rewrite decide_False by done. by rewrite app_nil_r.
Qed.

Lemma tick_dispatches_per_reminder_witness :
  ∃ fresh,
    dispatched (checkReminders 60000 payBill) = [] ++ fresh
    ∧ notifications (checkReminders 60000 payBill)
      = [] ++ ((λ n, JS.lit "Reminder: " ++ sn_body n) <$> fresh).
Proof.
  destruct (tick_dispatches_per_reminder 60000 payBill) as [Hgranted _].
  destruct Hgranted as (fresh & Hd & Hn & _).
  - vm_compute. reflexivity.
  - exists fresh. split; [exact Hd | exact Hn].
Defined.

Lemma date_le_mono (due : Date) (earlier later : Z) :
  earlier ≤ later → date_le due earlier = true → date_le due later = true.
Proof.
  destruct due as [ms|]; [| done]. simpl. intros Hle Hms.
  apply Z.leb_le. apply Z.leb_le in Hms. lia.
Qed.

Lemma eligible_after_tick (earlier now : Z) (todo : Todo) :
  earlier ≤ now → eligible earlier (flagIfDue now todo) = false.
Proof.
  intros Hle. unfold flagIfDue.
  destruct (eligible now todo) eqn:Hnow.
  - unfold eligible, flagged. simpl. by destruct (dueDate todo).
  - destruct (eligible earlier todo) eqn:Hearlier; [| done].
    apply eligible_iff in Hearlier as (due & Hd & Hf & Hc & Hdue).
    rewrite <- Hnow. symmetry. apply eligible_iff. exists due.
    split_and!; try done. by apply (date_le_mono due earlier now).
Qed.

Lemma filter_eligible_nil (now : Z) (l : list Todo) :
  Forall (λ todo, eligible now todo = false) l →
  filter (λ todo, eligible now todo) l = []
  ∧ flagIfDue now <$> l = l.
Proof.
  induction 1 as [|todo l Htodo Hl [IH1 IH2]]; [done |].
  rewrite filter_cons, fmap_cons, IH1, IH2. unfold flagIfDue.
  by rewrite Htodo.
Qed.

Lemma checkReminders_quiet (now : Z) (s : State) :
  Forall (λ todo, eligible now todo = false) (todos s) →
  checkReminders now s = s.
Proof.
  intros Hquiet. destruct (filter_eligible_nil now (todos s) Hquiet)
    as [Hnone Hsame].
  unfold checkReminders. rewrite mapM_remind, Hnone, Hsame. simpl.
  rewrite !app_nil_r. destruct s. simpl.
  f_equal. by destruct (decide _); rewrite app_nil_r.
Qed.

(** X9: a tick settles the list: after the tick at [now] no task is
    eligible at [now] or at any earlier time, so a second tick that reads
    the same or an earlier clock changes nothing at all: no flag, no toast,
    no platform notification, no re-arming of the timeout. *)
Theorem tick_settles (earlier now : Z) (s : State) :
  earlier ≤ now →
  Forall (λ todo, eligible earlier todo = false)
    (todos (checkReminders now s))
  ∧ checkReminders earlier (checkReminders now s) = checkReminders now s.
Proof.
  intros Hle.
  assert (Forall (λ todo, eligible earlier todo = false)
            (todos (checkReminders now s))) as Hquiet.
  { rewrite checkReminders_todos. apply Forall_fmap, Forall_true.
    intros todo. by apply eligible_after_tick. }
  split; [done | by apply checkReminders_quiet].
Qed.

Lemma tick_settles_witness :
  checkReminders 60000 (checkReminders 60000 payBill)
  = checkReminders 60000 payBill.
Proof. apply (tick_settles 60000 60000 payBill). lia. Defined.

(** X10: after a tick at [now], every task whose due line the page shows in
    red at [now] (due before [now] and not completed) has its reminder flag
    set; the highlight is strict where the monitor is not, so a task due
    exactly at [now] is flagged without being red. *)
Theorem overdue_flagged_after_tick (now : Z) (s : State) (todo : Todo) :
  todo ∈ todos (checkReminders now s) →
  overdue now todo = true →
  flagged todo = true.
Proof.
  rewrite checkReminders_todos.
  intros (old & -> & _)%list_elem_of_fmap Hred.
  unfold flagIfDue in *. destruct (eligible now old) eqn:He; [done |].
  destruct (flagged old) eqn:Hf; [done |].
  rewrite <- He. apply eligible_iff. unfold overdue in Hred.
  destruct (dueDate old) as [due|] eqn:Hd; [| done].
  apply andb_true_iff in Hred as [Hlt Hc].
  exists due. split_and!; [done | done | by destruct (completed old) |].
  destruct due as [ms|]; [| done]. simpl in *.
  apply Z.leb_le. apply Z.ltb_lt in Hlt. lia.
Qed.

Lemma overdue_flagged_after_tick_witness :
  flagged (withReminderShown true payBillTodo) = true
  ∧ overdue 60000 payBillTodo = false
  ∧ eligible 60000 payBillTodo = true.
Proof.
  split; [| by split].
  apply (overdue_flagged_after_tick 60001 payBill).
  - vm_compute. apply list_elem_of_here.
  - reflexivity.
Defined.

(** ** How the handlers compose *)

Lemma setTodos_setTodos (f g : list Todo → list Todo) (s : State) :
  setTodos f (setTodos g s) = setTodos (λ prev, f (g prev)) s.
Proof. done. Qed.

Lemma setTodos_ext (f g : list Todo → list Todo) (s : State) :
  f (todos s) = g (todos s) → setTodos f s = setTodos g s.
Proof. intros Hfg. unfold setTodos. by rewrite Hfg. Qed.

Lemma toggleOne_involutive (i : JS.str) (todo : Todo) :
  toggleOne i (toggleOne i todo) = todo.
Proof.
  unfold toggleOne. destruct (decide (id todo = i)) as [Hi|Hi].
  - rewrite decide_True by done. destruct todo as [? ? done' ? ? ? ?].
    unfold withCompleted. simpl. by rewrite negb_involutive.
  - by rewrite decide_False.
Qed.

(** X11: toggling the same identifier twice gives back the state as it
    was. *)
Theorem toggleTodo_involutive (i : JS.str) (s : State) :
  toggleTodo i (toggleTodo i s) = s.
Proof.
  unfold toggleTodo. rewrite setTodos_setTodos. apply setTodos_same.
  rewrite <- list_fmap_compose. rewrite <- (list_fmap_id (todos s)) at 2.
  apply list_fmap_ext. intros k todo _. apply toggleOne_involutive.
Qed.

Lemma toggleOne_comm (i j : JS.str) (todo : Todo) :
  toggleOne i (toggleOne j todo) = toggleOne j (toggleOne i todo).
Proof. unfold toggleOne. by repeat (case_decide; simpl in *). Qed.

Lemma toggleOne_id (i : JS.str) (todo : Todo) :
  id (toggleOne i todo) = id todo.
Proof. unfold toggleOne. by case_decide. Qed.

Lemma filter_fmap_toggle (i j : JS.str) (l : list Todo) :
  filter (λ todo, id todo ≠ i) (toggleOne j <$> l)
  = toggleOne j <$> filter (λ todo, id todo ≠ i) l.
Proof.
  induction l as [|todo l IH]; [done |].
  rewrite fmap_cons, !filter_cons, toggleOne_id.
  case_decide; by rewrite IH.
Qed.

(** X12: toggles and deletions commute with each other, whatever their
    identifiers: the order in which the user clicks check boxes and delete
    buttons does not matter for the resulting state. *)
Theorem toggle_delete_commute (i j : JS.str) (s : State) :
  toggleTodo i (toggleTodo j s) = toggleTodo j (toggleTodo i s)
  ∧ deleteTodo i (deleteTodo j s) = deleteTodo j (deleteTodo i s)
  ∧ deleteTodo i (toggleTodo j s) = toggleTodo j (deleteTodo i s).
Proof.
  unfold toggleTodo, deleteTodo. rewrite !setTodos_setTodos. split_and!.
  - apply setTodos_ext. rewrite <- !list_fmap_compose.
    apply list_fmap_ext. intros k todo _. apply toggleOne_comm.
  - apply setTodos_ext. rewrite !list_filter_filter.
    apply list_filter_iff. tauto.
  - apply setTodos_ext. apply filter_fmap_toggle.
Qed.

(** X13: deleting an identifier twice is deleting it once, and a toggle
    just before the deletion of the same identifier makes no difference. *)
Theorem deleteTodo_absorbs (i : JS.str) (s : State) :
  deleteTodo i (deleteTodo i s) = deleteTodo i s
  ∧ deleteTodo i (toggleTodo i s) = deleteTodo i s.
Proof.
  unfold toggleTodo, deleteTodo. rewrite !setTodos_setTodos. split.
  - apply setTodos_ext. apply list_filter_filter_l. tauto.
  - apply setTodos_ext. rewrite filter_fmap_toggle.
    rewrite <- (list_fmap_id (filter _ (todos s))) at 2.
    apply list_fmap_ext. intros k todo Hk.
    apply list_elem_of_lookup_2, list_elem_of_filter in Hk as [Hi _].
    unfold toggleOne. by rewrite decide_False.
Qed.

(** ** More on adding a task *)

(** X14: a successful [addTodo] appends exactly one task, built from the
    form: the trimmed title, not completed, the colour selected, a due date
    only when both the date and the time are filled in (otherwise none, even
    if one of the two is), the flag not set; it clears the form, sets the
    colour back to "gray", and leaves the toast queue, its timeout and the
    notification log alone. *)
Theorem addTodo_builds_task `{Browser} (now : Z) (answer : option Permission)
    (s : State) :
  JS.trim (newTitle s) ≠ [] →
  ∃ todo,
    todos (addTodo now answer s) = todos s ++ [todo]
    ∧ title todo = JS.trim (newTitle s)
    ∧ completed todo = false
    ∧ color todo = newColor s
    ∧ reminderShown todo = Some false
    ∧ (newDueDate s ≠ [] → newDueTime s ≠ [] →
         dueDate todo
         = Some (Date_parse (newDueDate s ++ JS.lit "T" ++ newDueTime s)))
    ∧ (newDueDate s = [] ∨ newDueTime s = [] → dueDate todo = None)
    ∧ newTitle (addTodo now answer s) = []
    ∧ newTags (addTodo now answer s) = []
    ∧ newColor (addTodo now answer s) = JS.lit "gray"
    ∧ newDueDate (addTodo now answer s) = []
    ∧ newDueTime (addTodo now answer s) = []
    ∧ notifications (addTodo now answer s) = notifications s
    ∧ dismissTimer (addTodo now answer s) = dismissTimer s
    ∧ dispatched (addTodo now answer s) = dispatched s.
Proof.
  intros Htitle.
  destruct (addTodo_success now answer s) as
    (todo & Htodos & -> & ? & ? & ? & ? & ? & ? & ? & ? & _).
  { by destruct (JS.trim (newTitle s)). }
  eexists. split_and!; try done; simpl.
  - intros Hdate Htime.
    by destruct (newDueDate s), (newDueTime s).
  - intros [-> | ->]; [done |]. by rewrite andb_false_r.
Qed.

Lemma addTodo_builds_task_witness :
  ∃ todo,
    todos (addTodo (H := utcBrowser) 1000 None tagsForm) = [] ++ [todo]
    ∧ title todo = JS.lit "x" ∧ dueDate todo = None.
Proof.
  destruct (addTodo_builds_task (H := utcBrowser) 1000 None tagsForm)
    as (todo & Htodos & Htitle & _ & _ & _ & _ & Hnone & _).
  - vm_compute. discriminate.
  - exists todo. split_and!; [exact Htodos | exact Htitle |].
    apply Hnone. by left.
Defined.

(** A call of [addTodo] that has run to its end has cleared the title, so
    a call that starts after it does nothing. *)
Lemma addTodo_twice `{Browser} (now now' : Z)
    (answer answer' : option Permission) (s : State) :
  addTodo now' answer' (addTodo now answer s) = addTodo now answer s.
Proof.
  apply addTodo_blank.
  destruct (JS.truthy (JS.trim (newTitle s))) eqn:Htitle.
  - by destruct (addTodo_success now answer s Htitle)
      as (todo & _ & _ & -> & _).
  - by rewrite addTodo_blank.
Qed.

(** X16: the add button is disabled exactly in the states in which
    [addTodo] would do nothing. *)
Theorem addDisabled_iff_noop `{Browser} (now : Z) (answer : option Permission)
    (s : State) :
  addDisabled s = true ↔ addTodo now answer s = s.
Proof.
  unfold addDisabled. rewrite negb_true_iff. split.
  - apply addTodo_blank.
  - intros Hnoop. destruct (JS.truthy (JS.trim (newTitle s))) eqn:Htitle;
      [| done].
    destruct (addTodo_success now answer s Htitle) as (todo & Htodos & _).
    rewrite Hnoop in Htodos. apply (f_equal length) in Htodos.
    rewrite length_app in Htodos. simpl in Htodos. lia.
Qed.

Lemma addDisabled_iff_noop_witness :
  addDisabled blankTitleForm = true
  ∧ addDisabled tagsForm = false.
Proof.
  split.
  - apply (addDisabled_iff_noop (H := utcBrowser) 59000 None blankTitleForm).
    apply (addTodo_blank (H := utcBrowser)). vm_compute. reflexivity.
  - vm_compute. reflexivity.
Defined.

(** ** More on the toast queue *)

Lemma drain_idle (n : nat) (s : State) :
  dismissTimer s = None → drain n s = s.
Proof.
  intros Ht. induction n as [|n IH]; [done |].
  rewrite drain_S, IH. unfold fireDismissal. by rewrite Ht.
Qed.

Lemma drain_add (n m : nat) (s : State) :
  drain (n + m) s = drain n (drain m s).
Proof. unfold drain. apply Nat.iter_add. Qed.

Lemma drain_length (s : State) (deadline : Z) :
  dismissTimer s = Some deadline → notifications s ≠ [] →
  notifications (drain (length (notifications s)) s) = []
  ∧ dismissTimer (drain (length (notifications s)) s) = None.
Proof.
  intros Ht Hq.
  destruct (notifications s) as [|m q] eqn:Hs; [done |].
  simpl length.
  destruct (drain_queue (length q) s deadline Ht) as [Hq' Ht'].
  { rewrite Hs. simpl. lia. }
  rewrite drain_S. unfold fireDismissal. rewrite Ht'.
  destruct (dismiss_due (deadline + 5000 * Z.of_nat (length q))
              (deadline + 5000 * Z.of_nat (length q)) (drain (length q) s)
              Ht') as [-> ->]; [lia |].
  rewrite Hq', Hs, length_drop. simpl length.
  replace (S (length q) - length q)%nat with 1%nat by lia.
  split; [| done]. rewrite drop_drop. apply drop_ge. simpl. lia.
Qed.

(** X17: left alone, a queue of [n] toasts is empty after [n] firings of
    the timeout, which is then no longer armed; nothing fires after that. *)
Theorem queue_drains (s : State) (deadline : Z) (n : nat) :
  dismissTimer s = Some deadline →
  notifications s ≠ [] →
  (length (notifications s) ≤ n)%nat →
  notifications (drain n s) = []
  ∧ dismissTimer (drain n s) = None
  ∧ fireDismissal (drain n s) = drain n s.
Proof.
  intros Ht Hq Hn. destruct (drain_length s deadline Ht Hq) as [Hempty Hoff].
  replace n with ((n - length (notifications s))
                  + length (notifications s))%nat by lia.
  rewrite drain_add, drain_idle by done.
  split_and!; [done | done |]. unfold fireDismissal. by rewrite Hoff.
Qed.

Lemma queue_drains_witness :
  notifications (drain 5 (run (H := utcBrowser) twoDueEvents init)) = []
  ∧ dismissTimer (drain 5 (run (H := utcBrowser) twoDueEvents init)) = None.
Proof.
  destruct (queue_drains (run (H := utcBrowser) twoDueEvents init) 65000 5)
    as (Hq & Ht & _).
  - vm_compute. reflexivity.
  - vm_compute. discriminate.
  - vm_compute. lia.
  - by split.
Defined.

Lemma flagIfDue_count (now : Z) (l : list Todo) :
  length (filter (λ todo, flagged todo) (flagIfDue now <$> l))
  = (length (filter (λ todo, eligible now todo) l)
     + length (filter (λ todo, flagged todo) l))%nat.
Proof.
  induction l as [|todo l IH]; [done |]. rewrite fmap_cons.
  destruct (eligible now todo) eqn:He.
  - assert (flagIfDue now todo = withReminderShown true todo) as ->.
    { unfold flagIfDue. by rewrite He. }
    apply eligible_iff in He as Hdue. destruct Hdue as (due & _ & Hf & _).
    rewrite (filter_cons_True (λ t, flagged t)) by exact I.
    rewrite (filter_cons_True (λ t, eligible now t)) by (rewrite He; exact I).
    rewrite (filter_cons_False (λ t, flagged t) todo)
      by (rewrite Hf; intros []).
    simpl. lia.
  - assert (flagIfDue now todo = todo) as ->.
    { unfold flagIfDue. by rewrite He. }
    rewrite (filter_cons_False (λ t, eligible now t))
      by (rewrite He; intros []).
    rewrite !(filter_cons (λ t, flagged t)).
    destruct (decide (flagged todo)); simpl; lia.
Qed.

(** X18: a tick queues exactly as many toasts as it sets flags: the growth
    of the queue is the growth of the number of flagged tasks. *)
Theorem tick_one_toast_per_flag (now : Z) (s : State) :
  (length (notifications (checkReminders now s))
   + length (filter (λ todo, flagged todo) (todos s)))%nat
  = (length (notifications s)
     + length (filter (λ todo, flagged todo)
                 (todos (checkReminders now s))))%nat.
Proof.
  rewrite checkReminders_notifications, checkReminders_todos.
  rewrite length_app, length_fmap, flagIfDue_count. lia.
Qed.

(** ** More on the life of a task *)

Lemma evolve_fields (e : Event) (todo todo' : Todo) :
  evolve e todo = Some todo' →
  id todo' = id todo ∧ title todo' = title todo ∧ tags todo' = tags todo
  ∧ color todo' = color todo ∧ dueDate todo' = dueDate todo.
Proof.
  destruct e as [| | | | | |i|i|now|]; try (by intros [= <-]).
  - intros [= <-]. unfold toggleOne. by case_decide.
  - simpl. case_decide; [by intros [= <-] | done].
  - rewrite evolve_tick. intros [= <-].
    by destruct (flagIfDue_fields now todo) as (? & ? & _ & ? & ? & ?).
Qed.

(** X19: the identifier, the title, the tags, the colour and the due date of
    a task never change after its creation, whatever happens; only
    [completed] and [reminderShown] do. *)
Theorem task_fields_immutable (es : list Event) (todo todo' : Todo) :
  life es todo = Some todo' →
  id todo' = id todo ∧ title todo' = title todo ∧ tags todo' = tags todo
  ∧ color todo' = color todo ∧ dueDate todo' = dueDate todo.
Proof.
  revert todo. induction es as [|e es IH]; intros todo; simpl.
  - by intros [= <-].
  - destruct (evolve e todo) as [mid|] eqn:He; [| done]. simpl.
    intros Hlife. destruct (IH mid Hlife) as (-> & -> & -> & -> & ->).
    by apply (evolve_fields e).
Qed.

Lemma task_fields_immutable_witness :
  title (withReminderShown true (withCompleted true payBillTodo))
  = title payBillTodo.
Proof.
  apply (task_fields_immutable
           [Toggle (JS.lit "58000"); Toggle (JS.lit "58000"); Tick 60000;
            Toggle (JS.lit "58000"); Delete (JS.lit "1")]
           payBillTodo).
  vm_compute. reflexivity.
Defined.

Lemma ids_run_sublist `{Browser} (es : list Event) (s : State) :
  id <$> todos (run es s)
  `sublist_of` (id <$> todos s) ++ (JS.toString <$> creationTimes es s).
Proof.
  revert s. induction es as [|e es IH]; intros s.
  - simpl. by rewrite app_nil_r.
  - simpl run. etrans; [apply IH |].
    rewrite (creationTimes_cons e es s), ids_step, fmap_app, <- app_assoc.
    apply sublist_app; [apply evolve_ids_sublist | done].
Qed.

(** X20: the list is always in creation order: the identifiers of the tasks
    in the list, from first to last, are clock readings of creations in the
    order in which the creations happened (those of deleted tasks left
    out); no handler reorders tasks. *)
Theorem todos_in_creation_order `{Browser} (es : list Event) :
  id <$> todos (run es init)
  `sublist_of` JS.toString <$> creationTimes es init.
Proof. apply (ids_run_sublist es init). Qed.

Lemma timer_armed_iff_queued_witness :
  dismissTimer (run (H := utcBrowser) (twoDueEvents ++ [Dismiss 65000;
                                                         Dismiss 70000]) init)
  = None.
Proof.
  apply (timer_armed_iff_queued (H := utcBrowser)).
  vm_compute. reflexivity.
Defined.

(** ** Submitting while the permission prompt is open *)

Lemma suspends_true (s : State) :
  suspends s = true →
  JS.truthy (JS.trim (newTitle s)) = true
  ∧ JS.truthy (newDueDate s) && JS.truthy (newDueTime s) = true
  ∧ notificationPermission s = PermDefault.
Proof.
  unfold suspends. rewrite !andb_true_iff, bool_decide_eq_true. tauto.
Qed.

(** A call and the answer of its prompt with nothing in between are the
    one-step [addTodo]. *)
Lemma resume_suspend `{Browser} (now : Z) (permission : Permission)
    (s : State) :
  suspends s = true →
  resume now permission (suspend s) s = addTodo now (Some permission) s.
Proof.
  intros (Htitle & Hdue & Hp)%suspends_true.
  unfold addTodo, resume, suspend, requestNotificationPermission.
  rewrite Htitle, Hdue. simpl. by rewrite decide_True.
Qed.

Lemma addTodo_unprompted `{Browser} (now : Z) (answer : option Permission)
    (s : State) :
  suspends s = false → addTodo now answer s = addTodo now None s.
Proof.
  intros Hs. unfold addTodo, suspends in *.
  destruct (JS.truthy (JS.trim (newTitle s))); [| done]. simpl in *.
  destruct (JS.truthy (newDueDate s) && JS.truthy (newDueTime s)); [| done].
  simpl in Hs. apply bool_decide_eq_false in Hs.
  unfold requestNotificationPermission.
  destruct answer; [| done]. by rewrite decide_False.
Qed.

Lemma resume_todos (now : Z) (permission : Permission) (call : Suspended)
    (s : State) :
  ∃ todo,
    todos (resume now permission call s) = todos s ++ [todo]
    ∧ id todo = JS.toString now
    ∧ title todo = JS.trim (su_title call)
    ∧ newTitle (resume now permission call s) = [].
Proof. unfold resume. eexists. by split_and!. Qed.

Lemma pageStep_submit_wait `{Browser} (now : Z) (s : State)
    (calls : list Suspended) :
  suspends s = true →
  pageStep (Submit now true) (mkPage s calls)
  = mkPage s (calls ++ [suspend s]).
Proof. intros Hwait. simpl. by rewrite Hwait. Qed.

Lemma pageStep_answer `{Browser} (now : Z) (permission : Permission)
    (s : State) (call : Suspended) (rest : list Suspended) :
  pageStep (Answer now permission) (mkPage s (call :: rest))
  = mkPage (resume now permission call s) rest.
Proof. done. Qed.

(** X15: whether a second submit adds a second task depends on where the
    first one is.  A call of [addTodo] that ran to its end (no prompt to
    wait for) has cleared the title, and a second call does nothing.  A call
    that is waiting for the permission prompt has not: a second submit finds
    the form still filled and waits as well, and when the prompts are
    answered the list has two new tasks with the same title, each with the
    clock reading of its own answer as identifier.  A call whose prompt is
    answered before anything else happens is the one-step [addTodo]. *)
Theorem submit_twice `{Browser} (now now' : Z) (supported supported' : bool)
    (answered answered' : Z) (permission permission' : Permission)
    (pg : Page) :
  (supported && suspends (cells pg) = false →
     pageRun [Submit now supported; Submit now' supported'] pg
     = pageRun [Submit now supported] pg)
  ∧ (suspends (cells pg) = true → suspended pg = [] →
       ∃ todo1 todo2,
         todos (cells (pageRun [Submit now true; Submit now' true;
                                Answer answered permission;
                                Answer answered' permission'] pg))
         = todos (cells pg) ++ [todo1; todo2]
         ∧ title todo1 = JS.trim (newTitle (cells pg))
         ∧ title todo2 = JS.trim (newTitle (cells pg))
         ∧ id todo1 = JS.toString answered
         ∧ id todo2 = JS.toString answered')
  ∧ (suspends (cells pg) = true → suspended pg = [] →
       pageRun [Submit now true; Answer answered permission] pg
       = mkPage (addTodo answered (Some permission) (cells pg)) []).
Proof.
  split_and!.
  - intros Hdone. simpl. rewrite Hdone. simpl.
    assert (suspends (addTodo now None (cells pg)) = false) as Hcleared.
    { unfold suspends.
      destruct (JS.truthy (JS.trim (newTitle (cells pg)))) eqn:Htitle.
      - by destruct (addTodo_success now None (cells pg) Htitle)
          as (todo & _ & _ & -> & _).
      - rewrite addTodo_blank by done. by rewrite Htitle. }
    rewrite Hcleared, andb_false_r. by rewrite addTodo_twice.
  - intros Hwait Hnone. destruct pg as [s calls]. simpl in Hwait, Hnone.
    subst calls. cbn [pageRun].
    rewrite !pageStep_submit_wait by done. cbn [app].
    rewrite !pageStep_answer.
    destruct (resume_todos answered permission (suspend s) s)
      as (todo1 & Ht1 & Hid1 & Htitle1 & _).
    destruct (resume_todos answered' permission' (suspend s)
                (resume answered permission (suspend s) s))
      as (todo2 & Ht2 & Hid2 & Htitle2 & _).
    exists todo1, todo2. cbn [cells]. rewrite Ht2, Ht1, <- app_assoc.
    by split_and!.
  - intros Hwait Hnone. destruct pg as [s calls]. simpl in Hwait, Hnone.
    subst calls. cbn [pageRun].
    rewrite pageStep_submit_wait by done. cbn [app].
    rewrite pageStep_answer. by rewrite resume_suspend.
Qed.

Lemma submit_twice_witness :
  (title <$> todos (cells (pageRun (H := utcBrowser)
                             [Submit 58000 true; Submit 58100 true;
                              Answer 58200 PermGranted;
                              Answer 58200 PermGranted] payBillForm))
   = [JS.lit "Pay bill"; JS.lit "Pay bill"])
  ∧ pageRun (H := utcBrowser) [Submit 58000 false; Submit 58100 false]
      payBillForm
    = pageRun (H := utcBrowser) [Submit 58000 false] payBillForm.
Proof.
  destruct (submit_twice (H := utcBrowser) 58000 58100 false false
              58200 58200 PermGranted PermGranted payBillForm)
    as (Hdone & Hboth & _).
  split.
  - destruct Hboth as (todo1 & todo2 & -> & Ht1 & Ht2 & _).
    + vm_compute. reflexivity.
    + reflexivity.
    + change (todos (cells payBillForm)) with (@nil Todo).
      simpl. rewrite Ht1, Ht2. vm_compute. reflexivity.
  - apply Hdone. reflexivity.
Defined.
